(** * DjedOps: status bands, arbitrage history, workflow engine, fetch retry

    A shallow embedding of the algorithmic parts of the dashboard:

    - the reserve-ratio status bands of the [djed/state] route and the
      derivation of the synthetic state it answers with,
    - [calculateNetProfit], the opportunity-history effect, the counters
      and the filter of the arbitrage page,
    - [useDexPrice] of [lib/hooks/useDexPrice.ts], whose reading drives
      that effect,
    - [fetchRealTimeData] / [executeWorkflow] / [executeNode] /
      [evaluateCondition] / [generateOutput] of [lib/workflow-engine.ts],
    - [fetchWithRetry] of [lib/hooks/useDjedData.ts],
    - the ratio calculation and the handlers of
      [components/SimulationModal.tsx].

    Conventions.  A JavaScript [number] that carries a measured quantity
    (price, ratio, spread, profit) is a rational [Q]: the rounding and the
    overflow of doubles are outside the model, and statements that depend
    on exact arithmetic say so.  Division by zero is inside it where
    [calculateNetProfit] divides by its argument: its value there is a
    [Js.number], which has the infinities and NaN.  Millisecond clock readings are [Z].
    [undefined] is [None].  A JavaScript [Set] of strings is a [gset string].
    The ambient effects ([Date.now], [Math.random], [fetch], [setTimeout])
    are read from and recorded in an explicit [World]. *)

From Stdlib Require Import ZArith QArith Qround Qabs Qminmax String List Lia Lqa.
From stdpp Require Import base gmap sets list strings pretty.
Close Scope Q_scope.

#[local] Set Warnings "-clear-no-such-hyp".

(** ** JavaScript numbers as rationals *)

Module Js.

(** [!x] for a number: [0] is the only falsy rational. *)
Definition falsy (x : Q) : bool := Qeq_bool x 0.

(** [!x] for an optional number: [undefined] is falsy as well. *)
Definition falsy_opt (x : option Q) : bool :=
  match x with
  | None => true
  | Some q => falsy q
  end.

(** [x || d] on an optional number. *)
Definition or_default (x : option Q) (d : Q) : Q :=
  match x with
  | None => d
  | Some q => if falsy q then d else q
  end.

(** [x ?? d]: only [undefined] selects the default. *)
Definition nullish (x : option Q) (d : Q) : Q :=
  match x with
  | None => d
  | Some q => q
  end.

Definition lt (a b : Q) : bool := negb (Qle_bool b a).
Definition gt (a b : Q) : bool := lt b a.
Definition ge (a b : Q) : bool := Qle_bool b a.
Definition le (a b : Q) : bool := Qle_bool a b.

(** [Math.max(a, b)] *)
Definition Math_max (a b : Q) : Q := if Qle_bool a b then b else a.

(** [Math.abs(a)] *)
Definition Math_abs (a : Q) : Q := Qabs a.

(** [Math.floor(a)], and [Math.round(a)], which rounds a half upwards. *)
Definition Math_floor (a : Q) : Z := Qfloor a.
Definition Math_round (a : Q) : Z := Qfloor (a + (1 # 2))%Q.

(** *** Division by zero

    Where a function divides by one of its arguments, its value is a
    [number]: a rational, one of the two infinities, or NaN.  The operands
    are rationals, and a rational [0] is the number [+0]. *)
Inductive number :=
| Finite (q : Q)
| Infinity
| NegInfinity
| NaN.

(** [a / b] *)
Definition div (a b : Q) : number :=
  if falsy b then
    if gt a 0 then Infinity else if lt a 0 then NegInfinity else NaN
  else Finite (a / b)%Q.

(** [x * b] *)
Definition times (x : number) (b : Q) : number :=
  match x with
  | Finite a => Finite (a * b)%Q
  | Infinity =>
      if gt b 0 then Infinity else if lt b 0 then NegInfinity else NaN
  | NegInfinity =>
      if gt b 0 then NegInfinity else if lt b 0 then Infinity else NaN
  | NaN => NaN
  end.

(** [x - b] *)
Definition minus (x : number) (b : Q) : number :=
  match x with
  | Finite a => Finite (a - b)%Q
  | Infinity => Infinity
  | NegInfinity => NegInfinity
  | NaN => NaN
  end.

(** [Math.max(a, x)]: NaN as soon as an argument is NaN. *)
Definition Math_max_number (a : Q) (x : number) : number :=
  match x with
  | Finite b => Finite (Math_max a b)
  | Infinity => Infinity
  | NegInfinity => Finite a
  | NaN => NaN
  end.


Definition number_lt (x : number) (a : Q) : bool :=
  match x with
  | Finite q => lt q a
  | NegInfinity => true
  | Infinity | NaN => false
  end.

End Js.

(** ** The ambient world

    [Date.now()] and [Math.random()] answer from two oracle streams, so that
    nothing is assumed about how time passes between two readings; [fetch]
    answers from a third, indexed by the number of requests made so far.
    Requests and timers are appended to [events] in program order. *)

#[local] Set Warnings "-register-all".

Inductive json :=
| JNull
| JBool (b : bool)
| JNum (q : Q)
| JStr (s : string)
| JArr (items : list json)
| JObj (fields : list (string * json)).

(** What [await fetch(url)] followed by [await response.json()] can do:
    reject with a message, or resolve to a response whose body either
    fails to parse (left, with the parser's message) or parses (right). *)
Inductive HttpResult :=
| NetworkError (message : string)
| HttpResponse (ok : bool) (status : Z) (statusText : string)
               (body : string + json).

Inductive Event :=
| EvFetch (url : string)
| EvTimeout (delay : Q).

Record World := mkWorld
  { clock : nat -> Z;
    reads : nat;
    random : nat -> Q;
    draws : nat;
    network : nat -> string -> HttpResult;
    requests : nat;
    events : list Event }.

(** A world whose clock reads [t] forever and whose network is down. *)
Definition worldAt (t : Z) : World :=
  mkWorld (fun _ => t) 0 (fun _ => 0%Q) 0
          (fun _ _ => NetworkError "offline") 0 [].

(** A computation that may touch the world. *)
Definition M (A : Type) : Type := World -> A * World.

Definition ret {A} (a : A) : M A := fun w => (a, w).

Definition bind {A B} (m : M A) (k : A -> M B) : M B :=
  fun w => let (a, w1) := m w in k a w1.

Notation "'do' x <- m ; k" := (bind m (fun x => k))
  (at level 10, x name, m at level 100, k at level 200).

Definition Date_now : M Z :=
  fun w =>
    (clock w (reads w),
     mkWorld (clock w) (S (reads w)) (random w) (draws w)
             (network w) (requests w) (events w)).

Definition Math_random : M Q :=
  fun w =>
    (random w (draws w),
     mkWorld (clock w) (reads w) (random w) (S (draws w))
             (network w) (requests w) (events w)).

Definition fetch (url : string) : M HttpResult :=
  fun w =>
    (network w (requests w) url,
     mkWorld (clock w) (reads w) (random w) (draws w)
             (network w) (S (requests w)) (events w ++ [EvFetch url])).

(** [await new Promise(resolve => setTimeout(resolve, delay))] *)
Definition sleep (delay : Q) : M unit :=
  fun w =>
    (tt,
     mkWorld (clock w) (reads w) (random w) (draws w)
             (network w) (requests w) (events w ++ [EvTimeout delay])).

(** [for (const x of xs) await f(x)] and [xs.map(f)] for an effectful [f]. *)
Fixpoint mapM {A B} (f : A -> M B) (xs : list A) : M (list B) :=
  match xs with
  | [] => ret []
  | x :: xs' => do y <- f x; do ys <- mapM f xs'; ret (y :: ys)
  end.

(** ** Reserve-ratio status bands ([djed/state] route) *)

Inductive ProtocolStatus := OPTIMAL | WARNING | CRITICAL.

(** [reserveRatio >= 400 ? 'OPTIMAL' : reserveRatio >= 200 ? 'WARNING' : 'CRITICAL'] *)
Definition djedStateStatus (reserveRatio : Q) : ProtocolStatus :=
  if Js.ge reserveRatio 400 then OPTIMAL
  else if Js.ge reserveRatio 200 then WARNING
  else CRITICAL.

(** ** Arbitrage page: net profit and opportunity history *)

Module Arbitrage.

(** The four [NEXT_PUBLIC_*] settings after [parseFloat]. *)
Record ProfitEnv := mkProfitEnv
  { DEX_FEE_PCT : Q;
    SLIPPAGE_PCT : Q;
    GAS_COST_USD : Q;
    DEFAULT_TRADE_AMOUNT : Q }.

(** The literals used when the environment leaves a setting unset. *)
Definition defaultProfitEnv : ProfitEnv :=
  {| DEX_FEE_PCT := 3 # 1000;
     SLIPPAGE_PCT := 5 # 1000;
     GAS_COST_USD := 1 # 2;
     DEFAULT_TRADE_AMOUNT := 1000 |}.

(** In rationals: this is the value of the function whenever [dexPrice]
    is not 0; [Numeric.calculateNetProfit] below covers [dexPrice = 0]. *)
Definition calculateNetProfit (env : ProfitEnv)
    (dexPrice protocolPrice spread : Q) (tradeAmount : option Q) : Q :=
  let amount := Js.nullish tradeAmount (DEFAULT_TRADE_AMOUNT env) in
  let tokensTraded := (amount / dexPrice)%Q in
  let grossProfit := (tokensTraded * Js.Math_abs spread)%Q in
  let dexFee := (amount * DEX_FEE_PCT env)%Q in
  let slippageCost := (amount * SLIPPAGE_PCT env)%Q in
  let totalCosts := (dexFee + slippageCost + GAS_COST_USD env)%Q in
  let netProfit := Js.Math_max 0 (grossProfit - totalCosts)%Q in
  netProfit.

(** [calculateNetProfit] on every rational input.  The definition above
    computes in rationals and is the value of the function whenever
    [dexPrice] is not 0; here [amount / dexPrice] is the division of
    JavaScript numbers, which at [dexPrice = 0] gives an infinity or NaN. *)
Module Numeric.

Definition calculateNetProfit (env : ProfitEnv)
    (dexPrice protocolPrice spread : Q) (tradeAmount : option Q)
    : Js.number :=
  let amount := Js.nullish tradeAmount (DEFAULT_TRADE_AMOUNT env) in
  let tokensTraded := Js.div amount dexPrice in
  let grossProfit := Js.times tokensTraded (Js.Math_abs spread) in
  let dexFee := (amount * DEX_FEE_PCT env)%Q in
  let slippageCost := (amount * SLIPPAGE_PCT env)%Q in
  let totalCosts := (dexFee + slippageCost + GAS_COST_USD env)%Q in
  let netProfit := Js.Math_max_number 0 (Js.minus grossProfit totalCosts) in
  netProfit.

End Numeric.


Inductive Signal := MINT_DJED | REDEEM_DJED | NO_CLEAR_EDGE.

Inductive OpportunityStatus := detected | expired.

Record ArbitrageOpportunity := mkOpportunity
  { id : string;
    timestamp : Z;
    signal : Signal;
    dexPrice : Q;
    protocolPrice : Q;
    spread : Q;
    spreadPercent : Q;
    potentialProfit : Q;
    liquidity : Q;
    status : OpportunityStatus;
    source : string }.

(** [{ ...opp, status: s }] *)
Definition withStatus (s : OpportunityStatus) (opp : ArbitrageOpportunity)
    : ArbitrageOpportunity :=
  mkOpportunity (id opp) (timestamp opp) (signal opp) (dexPrice opp)
    (protocolPrice opp) (spread opp) (spreadPercent opp)
    (potentialProfit opp) (liquidity opp) s (source opp).

(** What [useDexPrice()] hands to the page on a tick. *)
Record DexReading := mkReading
  { r_dexPrice : Q;
    r_protocolPrice : Q;
    r_spread : Q;
    r_spreadPercent : Q;
    r_signal : Signal;
    r_liquidity : Q;
    r_source : string }.

Definition is_detected (s : OpportunityStatus) : bool :=
  match s with detected => true | expired => false end.

Definition is_no_clear_edge (s : Signal) : bool :=
  match s with NO_CLEAR_EDGE => true | _ => false end.

(** [signal !== 'NO CLEAR EDGE' && Math.abs(spreadPercent) >= 0.5] *)
Definition hasSignal (r : DexReading) : bool :=
  negb (is_no_clear_edge (r_signal r))
  && Js.ge (Js.Math_abs (r_spreadPercent r)) (1 # 2).

(** The object literal [newOpportunity]: the clock is read once for the id
    and once for the timestamp. *)
Definition newOpportunity (env : ProfitEnv) (r : DexReading)
    : M ArbitrageOpportunity :=
  do t_id <- Date_now;
  do t <- Date_now;
  ret {| id := "opp-" +:+ pretty t_id;
         timestamp := t;
         signal := r_signal r;
         dexPrice := r_dexPrice r;
         protocolPrice := r_protocolPrice r;
         spread := r_spread r;
         spreadPercent := r_spreadPercent r;
         potentialProfit :=
           calculateNetProfit env (r_dexPrice r) (r_protocolPrice r)
                              (r_spread r) None;
         liquidity := r_liquidity r;
         status := detected;
         source := r_source r |}.

(** [!lastOpp || |lastOpp.spreadPercent - spreadPercent| > 0.1
     || Date.now() - lastOpp.timestamp > 60000]; [||] reads the clock only
    when the first two disjuncts are false. *)
Definition isSignificantChange (prev : list ArbitrageOpportunity)
    (spreadPercent_now : Q) : M bool :=
  match prev with
  | [] => ret true
  | lastOpp :: _ =>
      if Js.gt (Js.Math_abs (spreadPercent lastOpp - spreadPercent_now)%Q)
               (1 # 10)
      then ret true
      else do now <- Date_now; ret (now - timestamp lastOpp >? 60000)%Z
  end.

(** The callback of [newHistory.map]: one clock reading per entry. *)
Definition expireIfOld (opp : ArbitrageOpportunity) : M ArbitrageOpportunity :=
  do now <- Date_now;
  ret (withStatus
         (if (now - timestamp opp >? 300000)%Z && is_detected (status opp)
          then expired
          else status opp)
         opp).

(** The updater passed to [setOpportunityHistory] when a signal exists. *)
Definition recordOpportunity (newOpp : ArbitrageOpportunity)
    (spreadPercent_now : Q) (prev : list ArbitrageOpportunity)
    : M (list ArbitrageOpportunity) :=
  do significant <- isSignificantChange prev spreadPercent_now;
  if significant then
    let newHistory := firstn 20 (newOpp :: prev) in
    mapM expireIfOld newHistory
  else
    ret (newOpp :: skipn 1 prev).

(** The updater used when no signal exists. *)
Definition expireAll (prev : list ArbitrageOpportunity)
    : list ArbitrageOpportunity :=
  map (fun opp =>
         withStatus (if is_detected (status opp) then expired else status opp)
                    opp) prev.

(** The body of the page's [useEffect]: one evaluation tick. *)
Definition historyEffect (env : ProfitEnv) (r : DexReading)
    (prev : list ArbitrageOpportunity) : M (list ArbitrageOpportunity) :=
  if hasSignal r then
    do newOpp <- newOpportunity env r;
    recordOpportunity newOpp (r_spreadPercent r) prev
  else
    ret (expireAll prev).

(** Successive ticks, each starting from the history the last one left. *)
Fixpoint runTicks (env : ProfitEnv) (rs : list DexReading)
    (prev : list ArbitrageOpportunity) : M (list ArbitrageOpportunity) :=
  match rs with
  | [] => ret prev
  | r :: rs' => do next <- historyEffect env r prev; runTicks env rs' next
  end.

(** The page's initial state, [useState([])]. *)
Definition initialHistory : list ArbitrageOpportunity := [].

(** A tick on which the effect prepends: a signal exists and the updater
    finds the change significant. *)
Definition significantTick (env : ProfitEnv) (r : DexReading)
    (prev : list ArbitrageOpportunity) (w : World) : bool :=
  hasSignal r
  && (let (newOpp, w1) := newOpportunity env r w in
      fst (isSignificantChange prev (r_spreadPercent r) w1)).

(** The opportunities created by a run in which every tick is significant,
    newest first; [None] as soon as one tick is not. *)
Fixpoint addedBy (env : ProfitEnv) (rs : list DexReading)
    (prev : list ArbitrageOpportunity) (w : World)
    (acc : list ArbitrageOpportunity) : option (list ArbitrageOpportunity) :=
  match rs with
  | [] => Some acc
  | r :: rs' =>
      if significantTick env r prev w then
        let (next, w') := historyEffect env r prev w in
        addedBy env rs' next w' (fst (newOpportunity env r w) :: acc)
      else None
  end.

(** Two histories that agree on everything but the status column. *)
Definition sameEntries (h1 h2 : list ArbitrageOpportunity) : Prop :=
  map (withStatus detected) h1 = map (withStatus detected) h2.

(** The "same opportunity" test in the words of the specification: the
    spread moved by at most 0.1 and less than 60 seconds elapsed. *)
Definition sameOpportunity_spec (lastOpp : ArbitrageOpportunity)
    (spreadPercent_now : Q) (now : Z) : bool :=
  Js.le (Js.Math_abs (spreadPercent lastOpp - spreadPercent_now)%Q) (1 # 10)
  && (now - timestamp lastOpp <? 60000)%Z.

(** The same test with the bound the updater applies: at most 60 seconds. *)
Definition sameOpportunity (lastOpp : ArbitrageOpportunity)
    (spreadPercent_now : Q) (now : Z) : bool :=
  Js.le (Js.Math_abs (spreadPercent lastOpp - spreadPercent_now)%Q) (1 # 10)
  && (now - timestamp lastOpp <=? 60000)%Z.

(** The update policy of a tick with a signal, for a given "same
    opportunity" test: the most recent entry is replaced in place when the
    test holds, otherwise the new entry is prepended and the list cut to
    20.  The age is taken at the clock reading that follows the creation
    of the new entry. *)
Definition updatePolicy
    (same : ArbitrageOpportunity -> Q -> Z -> bool)
    (env : ProfitEnv) (r : DexReading) (prev : list ArbitrageOpportunity)
    (w : World) : Prop :=
  let (newOpp, w1) := newOpportunity env r w in
  let history := fst (historyEffect env r prev w) in
  match prev with
  | [] => sameEntries history (firstn 20 (newOpp :: prev))
  | lastOpp :: rest =>
      if same lastOpp (r_spreadPercent r) (fst (Date_now w1))
      then history = newOpp :: rest
      else sameEntries history (firstn 20 (newOpp :: prev))
  end.

(** Sample data: a MINT reading with a given spread percentage, a stored
    entry detected at a given time, and alternating readings. *)
Definition mintReading (spreadPercent_now : Q) : DexReading :=
  {| r_dexPrice := 1 + spreadPercent_now / 100;
     r_protocolPrice := 1;
     r_spread := spreadPercent_now / 100;
     r_spreadPercent := spreadPercent_now;
     r_signal := MINT_DJED;
     r_liquidity := 50000;
     r_source := "dex" |}.

Definition storedAt (t : Z) (spreadPercent_then : Q) : ArbitrageOpportunity :=
  {| id := "opp-" +:+ pretty t;
     timestamp := t;
     signal := MINT_DJED;
     dexPrice := 1 + spreadPercent_then / 100;
     protocolPrice := 1;
     spread := spreadPercent_then / 100;
     spreadPercent := spreadPercent_then;
     potentialProfit := 0;
     liquidity := 50000;
     status := detected;
     source := "dex" |}.

Fixpoint alternating (n : nat) : list DexReading :=
  match n with
  | O => []
  | S n' => mintReading (if Nat.even n then 1 else 2) :: alternating n'
  end.

(** *** The page's counters and filter *)

Record Stats := mkStats
  { total : nat;
    detected_count : nat;
    expired_count : nat;
    totalProfit : Q }.

(** [opportunityHistory.filter(o => o.status === s)] *)
Definition withStatusOf (s : OpportunityStatus)
    (history : list ArbitrageOpportunity) : list ArbitrageOpportunity :=
  List.filter
    (fun o => match s, status o with
              | detected, detected | expired, expired => true
              | _, _ => false
              end)
    history.

(** The object [stats]; [totalProfit] is the [reduce] over the detected
    entries, starting from 0. *)
Definition stats (history : list ArbitrageOpportunity) : Stats :=
  {| total := length history;
     detected_count := length (withStatusOf detected history);
     expired_count := length (withStatusOf expired history);
     totalProfit :=
       fold_left (fun sum o => (sum + potentialProfit o)%Q)
                 (withStatusOf detected history) 0%Q |}.

(** [filteredOpportunities]; [None] is the filter 'all'. *)
Definition filteredOpportunities (filter : option OpportunityStatus)
    (history : list ArbitrageOpportunity) : list ArbitrageOpportunity :=
  match filter with
  | None => history
  | Some s => withStatusOf s history
  end.

(** What every stored entry has in common with the reading it was made
    from. *)
Definition genuine (opp : ArbitrageOpportunity) : Prop :=
  signal opp <> NO_CLEAR_EDGE /\
  (1 # 2 <= Qabs (spreadPercent opp))%Q /\
  (0 <= potentialProfit opp)%Q.

(** An entry before and after a tick: the same data, and a status that can
    only move from detected to expired. *)
Definition aged (old new : ArbitrageOpportunity) : Prop :=
  withStatus detected new = withStatus detected old /\
  (status old = expired -> status new = expired).

End Arbitrage.

(** ** Workflow engine ([lib/workflow-engine.ts]) *)

Module Engine.

Record RealTimeData := mkData
  { reserveRatio : option Q;
    ergPrice : option Q;
    djedPrice : option Q;
    transactions : option Q }.

(** Truthiness of a parsed JSON value and of a possibly missing one. *)
Definition truthy (v : json) : bool :=
  match v with
  | JNull => false
  | JBool b => b
  | JNum q => negb (Js.falsy q)
  | JStr s => negb (String.eqb s "")
  | JArr _ | JObj _ => true
  end.

Definition truthy_opt (v : option json) : bool :=
  match v with
  | None => false
  | Some v => truthy v
  end.

Fixpoint lookup_field (k : string) (fields : list (string * json))
    : option json :=
  match fields with
  | [] => None
  | (k', v) :: rest => if String.eqb k k' then Some v else lookup_field k rest
  end.

(** [v.k] and [v?.k]; a missing property is [undefined]. *)
Definition prop (k : string) (v : option json) : option json :=
  match v with
  | Some (JObj fields) => lookup_field k fields
  | _ => None
  end.

(** A property the response interfaces declare as [number]. *)
Definition number_of (v : option json) : option Q :=
  match v with
  | Some (JNum q) => Some q
  | _ => None
  end.

(** [Array.isArray(v)] together with [v.length] *)
Definition array_length (v : option json) : option Q :=
  match v with
  | Some (JArr items) => Some (inject_Z (Z.of_nat (length items)))
  | _ => None
  end.

(** The body of a response the code goes on to read: the request resolved,
    [response.ok] held and [response.json()] parsed.  Everything else ends
    in the surrounding [if] or [catch] and leaves [data] as it was. *)
Definition usable_body (r : HttpResult) : option json :=
  match r with
  | HttpResponse true _ _ (inr body) => Some body
  | _ => None
  end.

Definition fetchRealTimeData : M RealTimeData :=
  do djedResponse <- fetch "/api/djed?endpoint=djed/state";
  let djedData := usable_body djedResponse in
  let djedFields :=
    if truthy_opt (prop "success" djedData) && truthy_opt (prop "data" djedData)
    then (number_of (prop "reserveRatio" (prop "data" djedData)),
          number_of (prop "djedPrice" (prop "data" djedData)))
    else (None, None) in
  do priceResponse <- fetch "/api/prices?symbols=ERG";
  let priceData := usable_body priceResponse in
  let ergField :=
    if truthy_opt (prop "success" priceData)
       && truthy_opt (prop "ERG" (prop "prices" priceData))
    then number_of (prop "price" (prop "ERG" (prop "prices" priceData)))
    else None in
  do feedResponse <- fetch "/api/feed";
  let feedData := usable_body feedResponse in
  let txField :=
    if truthy_opt (prop "success" feedData)
    then array_length (prop "transactions" feedData)
    else None in
  ret {| reserveRatio := fst djedFields;
         ergPrice := ergField;
         djedPrice := snd djedFields;
         transactions := txField |}.

(** The parts of [workflow-types] the engine reads. *)
Record Condition := mkCondition
  { condition_type : string;
    condition_value : option Q }.

Record WorkflowNode := mkNode
  { id : string;
    type : string;
    condition : option Condition }.

Record Connection := mkConnection
  { from : string;
    to : string }.

Record Workflow := mkWorkflow
  { workflow_id : string;
    workflow_name : string;
    nodes : list WorkflowNode;
    connections : list Connection }.

Record AppletDefinition := mkApplet
  { name : string }.

Inductive ExecutionStatus := success | skipped | failed.

(** The synthetic outputs of [generateOutput], one constructor per object
    shape.  A field the code formats with [toLocaleString] or [toFixed]
    holds the number that is formatted. *)
Inductive Output :=
| OutNoData (status error : string) (timestamp : Z)
| OutMonitor (reserveRatio : Q) (djedSupply reserveBalance : Z)
             (status : string) (timestamp : Z)
| OutSim (scenario : string) (projectedRatio : Z)
         (risk recommendation : string) (timestamp : Z)
| OutSentinel (threatLevel stressTestResult : string) (vulnerabilities : Z)
              (timestamp : Z)
| OutLedger (transactions volume largestTx : Q) (timestamp : Z)
| OutArbitrage (opportunities : Z) (bestSpread potentialProfit : Q)
               (timestamp : Z)
| OutExecuted (status : string) (timestamp : Z).

Record NodeExecution := mkExecution
  { nodeId : string;
    nodeName : string;
    status : ExecutionStatus;
    startTime : Z;
    endTime : Z;
    output : option Output;
    error : option string }.

Inductive LogStatus := completed | log_failed.

Record ExecutionLogEntry := mkLog
  { log_id : string;
    workflowId : string;
    workflowName : string;
    timestamp : Z;
    nodeExecutions : list NodeExecution;
    totalDuration : Z;
    log_status : LogStatus }.

(** [evaluateCondition]: without both metrics nothing is evaluated. *)
Definition evaluateCondition (c : Condition) (realTimeData : RealTimeData)
    : bool :=
  let dsi := reserveRatio realTimeData in
  let price := djedPrice realTimeData in
  match dsi, price with
  | Some dsi, Some price =>
      if Js.falsy dsi || Js.falsy price then false
      else if String.eqb (condition_type c) "dsi_below" then
        Js.lt dsi (Js.or_default (condition_value c) 400)
      else if String.eqb (condition_type c) "dsi_above" then
        Js.gt dsi (Js.or_default (condition_value c) 500)
      else if String.eqb (condition_type c) "price_below" then
        Js.lt price (Js.or_default (condition_value c) (95 # 100))
      else if String.eqb (condition_type c) "price_above" then
        Js.gt price (Js.or_default (condition_value c) (105 # 100))
      else true
  | _, _ => false
  end.

(** [let shouldExecute = true;
     if (node.condition && node.condition.type !== 'always')
       shouldExecute = evaluateCondition(node.condition, realTimeData)] *)
Definition shouldExecute (node : WorkflowNode) (realTimeData : RealTimeData)
    : bool :=
  match condition node with
  | Some c =>
      if negb (String.eqb (condition_type c) "always")
      then evaluateCondition c realTimeData
      else true
  | None => true
  end.

Definition generateOutput (appletType : string) (realTimeData : RealTimeData)
    : M Output :=
  do timestamp <- Date_now;
  match reserveRatio realTimeData, ergPrice realTimeData with
  | Some reserveRatio, Some ergPrice =>
      if Js.falsy reserveRatio || Js.falsy ergPrice then
        ret (OutNoData "error" "No real-time data available" timestamp)
      else
        do txCount <-
          (if Js.falsy_opt (transactions realTimeData) then
             do r <- Math_random;
             ret (inject_Z (Js.Math_floor (r * 50)%Q + 10))
           else ret (Js.or_default (transactions realTimeData) 0));
        if String.eqb appletType "djed_monitor" then
          do r1 <- Math_random;
          do r2 <- Math_random;
          ret (OutMonitor reserveRatio
                 (Js.Math_round (1000000 + r1 * 500000)%Q)
                 (Js.Math_round (reserveRatio * 10000 + r2 * 100000)%Q)
                 (if Js.ge reserveRatio 400 then "OPTIMAL" else "WARNING")
                 timestamp)
        else if String.eqb appletType "djed_sim" then
          ret (OutSim "Price Shock -10%"
                 (Js.Math_round (reserveRatio * (9 # 10))%Q)
                 (if Js.gt reserveRatio 500 then "LOW"
                  else if Js.gt reserveRatio 400 then "MEDIUM" else "HIGH")
                 (if Js.lt reserveRatio 450 then "Increase reserves by 5%"
                  else "Reserve levels adequate")
                 timestamp)
        else if String.eqb appletType "djed_sentinel" then
          ret (OutSentinel
                 (if Js.lt reserveRatio 400 then "CRITICAL" else "NORMAL")
                 (if Js.gt reserveRatio 350 then "PASSED" else "FAILED")
                 (if Js.lt reserveRatio 400 then 2 else 0)%Z
                 timestamp)
        else if String.eqb appletType "djed_ledger" then
          do r1 <- Math_random;
          do r2 <- Math_random;
          ret (OutLedger txCount
                 (txCount * ergPrice * ((1 # 2) + r1))%Q
                 (ergPrice * (5 + r2 * 10))%Q
                 timestamp)
        else if String.eqb appletType "djed_arbitrage" then
          do spread <- Math_random;
          let spread := (spread * (1 # 2))%Q in
          do opportunities <-
            (if Js.gt spread (3 # 10) then
               do r <- Math_random; ret (Js.Math_floor (r * 3)%Q + 1)%Z
             else ret 0%Z);
          ret (OutArbitrage opportunities spread (spread * ergPrice * 100)%Q
                 timestamp)
        else
          ret (OutExecuted "executed" timestamp)
  | _, _ =>
      ret (OutNoData "error" "No real-time data available" timestamp)
  end.

(** The two objects [executeNode] mutates through its arguments. *)
Record Run := mkRun
  { executions : list NodeExecution;
    executedNodes : gset string }.

(** [for (const x of xs) await f(x)] over the shared [Run]. *)
Fixpoint forEach {A} (f : A -> Run -> World -> option (Run * World))
    (xs : list A) (run : Run) (w : World) : option (Run * World) :=
  match xs with
  | [] => Some (run, w)
  | x :: xs' =>
      match f x run w with
      | Some (run1, w1) => forEach f xs' run1 w1
      | None => None
      end
  end.

Section Engine.

(** The table [APPLET_DEFINITIONS] of [workflow-types], a
    [Record<AppletType, ...>]: every node type has an entry. *)
Variable APPLET_DEFINITIONS : string -> AppletDefinition.

Variable workflow : Workflow.
Variable realTimeData : RealTimeData.

(** [executeNode] from the clock reading [nodeStart] to the object literal
    [execution]. *)
Definition performNode (node : WorkflowNode) : M (bool * NodeExecution) :=
  do nodeStart <- Date_now;
  let definition := APPLET_DEFINITIONS (type node) in
  do r <- Math_random;
  let executionTime := (300 + r * 700)%Q in
  do _ <- sleep executionTime;
  let shouldExecute := shouldExecute node realTimeData in
  do output <-
    (if shouldExecute then
       do o <- generateOutput (type node) realTimeData; ret (Some o)
     else ret None);
  do endTime <- Date_now;
  ret (shouldExecute,
       {| nodeId := id node;
          nodeName := name definition;
          status := if shouldExecute then success else skipped;
          startTime := nodeStart;
          endTime := endTime;
          output := output;
          error := None |}).

(** [workflow.connections.filter(c => c.from === node.id)
      .map(c => workflow.nodes.find(n => n.id === c.to))
      .filter(n => n !== undefined)] *)
Definition connectedNodes (node : WorkflowNode) : list WorkflowNode :=
  omap (fun c => List.find (fun n => String.eqb (id n) (to c))
                           (nodes workflow))
       (List.filter (fun c => String.eqb (from c) (id node))
                    (connections workflow)).

(** [executeNode]; [fuel] bounds the depth of the recursion, and [None]
    means the bound was too small. *)
Fixpoint executeNode (fuel : nat) (node : WorkflowNode) (run : Run)
    (w : World) : option (Run * World) :=
  match fuel with
  | O => None
  | S fuel' =>
      if decide (id node ∈ executedNodes run) then Some (run, w)
      else
        let '(shouldExecute, execution, w1) := performNode node w in
        let run1 :=
          {| executions := executions run ++ [execution];
             executedNodes := executedNodes run ∪ {[ id node ]} |} in
        if shouldExecute : bool then
          forEach (executeNode fuel') (connectedNodes node) run1 w1
        else Some (run1, w1)
  end.

End Engine.

(** The node ids with an incoming connection, and the entry nodes. *)
Definition incomingConnections (workflow : Workflow) : gset string :=
  list_to_set (map to (connections workflow)).

Definition entryNodes (workflow : Workflow) : list WorkflowNode :=
  let entries :=
    List.filter
      (fun n => negb (bool_decide (id n ∈ incomingConnections workflow)))
      (nodes workflow) in
  match entries, nodes workflow with
  | [], first :: _ => [first]
  | _, _ => entries
  end.

Definition is_critical (protocolStatus : option ProtocolStatus) : bool :=
  match protocolStatus with
  | Some CRITICAL => true
  | _ => false
  end.

Definition is_failed (s : ExecutionStatus) : bool :=
  match s with failed => true | _ => false end.

Definition blocked_message : string :=
  "[BLOCKED] Execution halted by Sentinel Policy: CRITICAL STATE. Workflow cannot execute while protocol security is compromised.".

(** [executeWorkflow].  No node is entered more often than there are nodes,
    so the traversal gets one unit of fuel per node and one to spare. *)
Definition executeWorkflow (APPLET_DEFINITIONS : string -> AppletDefinition)
    (workflow : Workflow) (protocolStatus : option ProtocolStatus)
    (w : World) : option (ExecutionLogEntry * World) :=
  let (startTime, w) := Date_now w in
  if is_critical protocolStatus then
    let (t_end, w) := Date_now w in
    let blockedExecution :=
      {| nodeId := "POLICY_ENFORCEMENT";
         nodeName := "[SENTINEL_POLICY]";
         status := failed;
         startTime := startTime;
         endTime := t_end;
         output := None;
         error := Some blocked_message |} in
    let (t_id, w) := Date_now w in
    let (t_total, w) := Date_now w in
    Some ({| log_id := "exec_" +:+ pretty t_id;
             workflowId := workflow_id workflow;
             workflowName := workflow_name workflow;
             timestamp := startTime;
             nodeExecutions := [blockedExecution];
             totalDuration := t_total - startTime;
             log_status := log_failed |}, w)
  else
    let (realTimeData, w) := fetchRealTimeData w in
    let fuel := S (length (nodes workflow)) in
    match forEach (executeNode APPLET_DEFINITIONS workflow realTimeData fuel)
                  (entryNodes workflow)
                  {| executions := []; executedNodes := ∅ |} w with
    | None => None
    | Some (run, w) =>
        let (t_total, w) := Date_now w in
        let totalDuration := (t_total - startTime)%Z in
        let (t_id, w) := Date_now w in
        Some ({| log_id := "exec_" +:+ pretty t_id;
                 workflowId := workflow_id workflow;
                 workflowName := workflow_name workflow;
                 timestamp := startTime;
                 nodeExecutions := executions run;
                 totalDuration := totalDuration;
                 log_status :=
                   if existsb (fun n => is_failed (status n)) (executions run)
                   then log_failed else completed |}, w)
    end.

(** *** Notions used to state the properties of a traversal *)

Definition workflowIds (workflow : Workflow) : gset string :=
  list_to_set (map id (nodes workflow)).

(** How many node ids of the workflow have not been entered yet. *)
Definition unvisited (workflow : Workflow) (run : Run) : nat :=
  size (workflowIds workflow ∖ executedNodes run).

Definition recordedIds (records : list NodeExecution) : list string :=
  map nodeId records.

(** The record list and the visited set tell the same story: one record
    per visited id. *)
Definition consistent (run : Run) : Prop :=
  NoDup (recordedIds (executions run)) /\
  forall i, i ∈ recordedIds (executions run) <-> i ∈ executedNodes run.

(** A record written by [executeNode]: success with an output, or skipped
    without one; never failed. *)
Definition nodeRecord (e : NodeExecution) : Prop :=
  (status e = success /\ output e <> None \/
   status e = skipped /\ output e = None) /\
  error e = None.

Definition emptyRun : Run := {| executions := []; executedNodes := ∅ |}.

(** The run after [executions.push(e); executedNodes.add(i)]. *)
Definition pushed (run : Run) (e : NodeExecution) (i : string) : Run :=
  {| executions := executions run ++ [e];
     executedNodes := executedNodes run ∪ {[ i ]} |}.

(** What a traversal step keeps and guarantees. *)
Definition extends (run run' : Run) : Prop :=
  executedNodes run ⊆ executedNodes run' /\
  (exists more, executions run' = executions run ++ more) /\
  (consistent run -> consistent run') /\
  (Forall nodeRecord (executions run) -> Forall nodeRecord (executions run')).

(** The ids of [connectedNodes] for a node with id [i]: only the id of
    the node enters the filter on [c.from]. *)
Definition successorIds (workflow : Workflow) (i : string) : list string :=
  map id (connectedNodes workflow (mkNode i "" None)).

(** Every successful record has all its successors visited, except
    possibly those still [pending] in a loop further up. *)
Definition closedUpTo (workflow : Workflow) (pending : list string)
    (run : Run) : Prop :=
  forall e i,
    In e (executions run) -> status e = success ->
    In i (successorIds workflow (nodeId e)) ->
    i ∈ executedNodes run \/ In i pending.

(** An id the traversal may enter: that of an entry node, or a successor
    of a successful record. *)
Definition admitted (workflow : Workflow) (records : list NodeExecution)
    (i : string) : Prop :=
  (exists n, In n (entryNodes workflow) /\ id n = i) \/
  (exists e, In e records /\ status e = success /\
             In i (successorIds workflow (nodeId e))).

Definition justified (workflow : Workflow) (run : Run) : Prop :=
  forall e, In e (executions run) ->
            admitted workflow (executions run) (nodeId e).

(** The diamond A->B, A->C, B->D, C->D over four nodes of any type and
    condition. *)
Definition diamond (tA tB tC tD : string) (cA cB cC cD : option Condition)
    : Workflow :=
  {| workflow_id := "wf_diamond";
     workflow_name := "diamond";
     nodes := [mkNode "A" tA cA; mkNode "B" tB cB;
               mkNode "C" tC cC; mkNode "D" tD cD];
     connections := [mkConnection "A" "B"; mkConnection "A" "C";
                     mkConnection "B" "D"; mkConnection "C" "D"] |}.

(** A table that names every applet after its type. *)
Definition sampleDefinitions (appletType : string) : AppletDefinition :=
  {| name := appletType |}.

End Engine.

(** ** Client-side retry ([lib/hooks/useDjedData.ts]) *)

Module Retry.

(** How a promise settles; an [Error] is its message. *)
Inductive Settled (T : Type) :=
| Resolved (value : T)
| Rejected (message : string).

Arguments Resolved {T} value.
Arguments Rejected {T} message.

(** The [try] block of one attempt: a rejected request, a response that is
    not [ok] and a body that does not parse all land in [catch]. *)
Definition attemptResult (r : HttpResult) : Settled json :=
  match r with
  | NetworkError message => Rejected message
  | HttpResponse false status statusText _ =>
      Rejected ("HTTP " +:+ pretty status +:+ ": " +:+ statusText)
  | HttpResponse true _ _ (inl message) => Rejected message
  | HttpResponse true _ _ (inr body) => Resolved body
  end.

(** The [for] loop from [attempt] on, with [remaining = maxRetries - attempt]
    iterations left, and the [throw] that follows it. *)
Fixpoint attempts (url : string) (maxRetries : nat) (initialDelay : Z)
    (remaining attempt : nat) (lastError : option string)
    : M (Settled json) :=
  match remaining with
  | O =>
      ret (Rejected (match lastError with
                     | Some e => e
                     | None => "Failed to fetch data after retries"
                     end))
  | S remaining' =>
      do response <- fetch url;
      match attemptResult response with
      | Resolved value => ret (Resolved value)
      | Rejected e =>
          do _ <-
            (if (attempt <? maxRetries - 1)%nat then
               let delay := (initialDelay * 2 ^ Z.of_nat attempt)%Z in
               sleep (inject_Z delay)
             else ret tt);
          attempts url maxRetries initialDelay remaining' (S attempt) (Some e)
      end
  end.

Definition fetchWithRetry (url : string) (maxRetries : nat)
    (initialDelay : Z) : M (Settled json) :=
  attempts url maxRetries initialDelay maxRetries 0 None.

(** The defaults of the signature, which every call site relies on. *)
Definition default_maxRetries : nat := 3.
Definition default_initialDelay : Z := 1000.

Definition fetchWithRetry_default (url : string) : M (Settled json) :=
  fetchWithRetry url default_maxRetries default_initialDelay.

(** Projections of the event log. *)
Definition fetchesOf (evs : list Event) : list string :=
  omap (fun e => match e with EvFetch url => Some url | _ => None end) evs.

Definition delaysOf (evs : list Event) : list Q :=
  omap (fun e => match e with EvTimeout d => Some d | _ => None end) evs.

(** The events a computation adds to those of the world it starts in. *)
Definition newEvents (w w' : World) : list Event :=
  skipn (length (events w)) (events w').

(** The events of [n] attempts on [url] with the given waits between them:
    a request, then a wait and a request for each further attempt. *)
Fixpoint schedule (url : string) (waits : list Q) (n : nat) : list Event :=
  match n with
  | O => []
  | S n' =>
      EvFetch url ::
      match n', waits with
      | S _, delay :: waits' => EvTimeout delay :: schedule url waits' n'
      | _, _ => []
      end
  end.

(** The waits in the words of the specification, and those that can lie
    between three attempts. *)
Definition waits_spec : list Q := [1000%Q; 2000%Q; 4000%Q].
Definition waits_between : list Q := [1000%Q; 2000%Q].

(** The responses to the next [n] requests for [url] are all failures. *)
Definition allRejected (url : string) (w : World) (n : nat) : Prop :=
  forall k, (k < n)%nat ->
            exists e, attemptResult (network w (requests w + k)%nat url)
                      = Rejected e.

(** The retry policy for a given list of waits.  Some attempt number [n],
    the first, second or third, settles the call: the attempts before it
    all failed, the events are those [n] requests interleaved with the
    waits in order, and
    - the call resolves only with the body that attempt [n] received;
    - the call rejects only after three attempts, with all the waits
      served, and with the error of the third attempt. *)
Definition retryPolicy (waits : list Q) (url : string) (w : World) : Prop :=
  let (result, w') := fetchWithRetry_default url w in
  let evs := newEvents w w' in
  exists n,
    (1 <= n <= 3)%nat /\
    evs = schedule url waits n /\
    allRejected url w (n - 1) /\
    match result with
    | Resolved value =>
        attemptResult (network w (requests w + (n - 1))%nat url)
        = Resolved value
    | Rejected e =>
        n = 3%nat /\
        delaysOf evs = waits /\
        attemptResult (network w (requests w + 2)%nat url) = Rejected e
    end.

(** The waits after the failed attempts number [attempt],
    [attempt + 1], ..., [count] of them: [initialDelay * 2 ^ attempt] each. *)
Fixpoint backoffFrom (initialDelay : Z) (attempt count : nat) : list Q :=
  match count with
  | O => []
  | S count' =>
      inject_Z (initialDelay * 2 ^ Z.of_nat attempt)
      :: backoffFrom initialDelay (S attempt) count'
  end.

(** The total time asked of [setTimeout]. *)
Definition totalDelay (evs : list Event) : Q :=
  fold_right Qplus 0%Q (delaysOf evs).

End Retry.

(** ** DEX price hook ([lib/hooks/useDexPrice.ts]) *)

Module DexPrice.

Definition MINT_THRESHOLD_PCT : Q := 1 # 2.
Definition REDEEM_THRESHOLD_PCT : Q := - (1 # 2).
Definition DEMO_DEX_PRICE : Q := 102 # 100.

Record DexPriceResponse := mkDexPrice
  { success : bool;
    price : Q;
    pair : string;
    liquidity : Q;
    source : string }.

Record DjedPriceResponse := mkDjedPrice
  { mintPrice : Q;
    redeemPrice : Q;
    peg : Q;
    timestamp : Z;
    djed_source : string }.

(** What the hook returns: the fields the arbitrage page reads, and the two
    flags. *)
Record DexPriceResult := mkResult
  { reading : Arbitrage.DexReading;
    isLoading : bool;
    isError : bool }.

(** The body of [useDexPrice] after the two [useSWR] calls: [dexData] and
    [djedData] are what they hold ([undefined] until a fetch succeeds),
    [dexError] and [djedError] say whether an error is set. *)
Definition useDexPrice (isDemoMode : bool)
    (dexData : option DexPriceResponse) (djedData : option DjedPriceResponse)
    (dexError djedError : bool) : DexPriceResult :=
  let '(effectiveDexPrice, liquidity, source) :=
    if isDemoMode then (DEMO_DEX_PRICE, 0%Q, "demo")
    else
      match dexData with
      | Some d =>
          if success d then (price d, liquidity d, source d)
          else (0%Q, 0%Q, "demo")
      | None => (0%Q, 0%Q, "demo")
      end in
  let protocolPrice :=
    match negb isDemoMode, djedData with
    | true, Some d => mintPrice d
    | _, _ => 1%Q
    end in
  let spread := (Js.or_default (Some effectiveDexPrice) 0 - protocolPrice)%Q in
  let spreadPercent :=
    if Js.gt protocolPrice 0 then (spread / protocolPrice * 100)%Q else 0%Q in
  let signal :=
    if Js.ge spreadPercent MINT_THRESHOLD_PCT then Arbitrage.MINT_DJED
    else if Js.le spreadPercent REDEEM_THRESHOLD_PCT then Arbitrage.REDEEM_DJED
    else Arbitrage.NO_CLEAR_EDGE in
  {| reading :=
       {| Arbitrage.r_dexPrice := effectiveDexPrice;
          Arbitrage.r_protocolPrice := protocolPrice;
          Arbitrage.r_spread := spread;
          Arbitrage.r_spreadPercent := spreadPercent;
          Arbitrage.r_signal := signal;
          Arbitrage.r_liquidity := liquidity;
          Arbitrage.r_source := source |};
     isLoading :=
       (match dexData with None => true | Some _ => false end
        && negb isDemoMode && negb dexError)
       || (match djedData with None => true | Some _ => false end
           && negb isDemoMode && negb djedError);
     isError := dexError || djedError |}.

(** One render of the arbitrage page: the hook's reading drives the
    history effect. *)
Definition pageTick (env : Arbitrage.ProfitEnv) (isDemoMode : bool)
    (dexData : option DexPriceResponse) (djedData : option DjedPriceResponse)
    (dexError djedError : bool) (prev : list Arbitrage.ArbitrageOpportunity)
    : M (list Arbitrage.ArbitrageOpportunity) :=
  Arbitrage.historyEffect env
    (reading (useDexPrice isDemoMode dexData djedData dexError djedError))
    prev.

End DexPrice.

(** ** The [djed/state] branch of the [/api/djed] route

    The upstream answers are read as the route reads them, with the field
    types the price APIs and the Ergo Explorer document: [ergo.usd],
    [coins['coingecko:ergo'].price], [supply] and [transactionsCount] are
    numbers when present, [items] is an array of block objects when
    present.  On such answers nothing inside the branch's [try] throws, so
    its [catch] with the constant fallback answer is never entered. *)

Module DjedRoute.

Definition ERGO_API_BASE : string := "https://api.ergoplatform.com/api/v1".

Definition COINGECKO_URL : string :=
  "https://api.coingecko.com/api/v3/simple/price?ids=ergo&vs_currencies=usd".

Definition DEFILLAMA_URL : string :=
  "https://coins.llama.fi/prices/current/coingecko:ergo".

(** [a % b] for [b <> 0]: what is left of [a] after the quotient truncated
    towards zero, so the result has the sign of [a]. *)
Definition Math_trunc (q : Q) : Z :=
  if Qle_bool 0 q then Qfloor q else Qceiling q.

Definition rem (a b : Q) : Q :=
  (a - b * inject_Z (Math_trunc (a / b)))%Q.

(** [if (v) ergPrice = v]: the field is taken when it is truthy. *)
Definition truthy_number (v : option json) : option Q :=
  match Engine.number_of v with
  | Some q => if Js.falsy q then None else Some q
  | None => None
  end.

(** [fetch(url).then(r => r.json()).catch(() => null)]: the status of the
    response is not looked at; a rejected request and a body that does not
    parse both give [null]. *)
Definition parsed_body (r : HttpResult) : option json :=
  match r with
  | HttpResponse _ _ _ (inr body) => Some body
  | _ => None
  end.

(** [blocksData?.items || []] *)
Definition items_of (blocksData : option json) : list json :=
  match Engine.prop "items" blocksData with
  | Some (JArr items) => items
  | _ => []
  end.

(** [block.transactionsCount || 0] *)
Definition transactionsCount (block : json) : Q :=
  Js.or_default (Engine.number_of (Engine.prop "transactionsCount" (Some block)))
                0.

(** [recentBlocks.reduce((sum, block) => sum + (block.transactionsCount || 0), 0)] *)
Definition sumTxCount (recentBlocks : list json) : Q :=
  fold_left (fun sum block => (sum + transactionsCount block)%Q)
            recentBlocks 0%Q.

Definition avgTxCount (recentBlocks : list json) : Q :=
  if (0 <? length recentBlocks)%nat
  then (sumTxCount recentBlocks
        / inject_Z (Z.of_nat (length recentBlocks)))%Q
  else 100%Q.

(** The ERG price of the two sources: CoinGecko first, DefiLlama only when
    CoinGecko gave no truthy price. *)
Definition priceFromSources : M (option Q) :=
  do priceResponse <- fetch COINGECKO_URL;
  let ergPrice :=
    truthy_number
      (Engine.prop "usd"
         (Engine.prop "ergo" (Engine.usable_body priceResponse))) in
  if Js.falsy_opt ergPrice then
    do defiLlamaResponse <- fetch DEFILLAMA_URL;
    ret (truthy_number
           (Engine.prop "price"
              (Engine.prop "coingecko:ergo"
                 (Engine.prop "coins"
                    (Engine.usable_body defiLlamaResponse)))))
  else ret ergPrice.

(** The [data] object of the answer. *)
Record StateData := mkState
  { ergPrice : Q;
    baseReserves : Q;
    reservesUSD : Q;
    djedSupply : Q;
    circulatingDjed : Q;
    shenCirculation : Q;
    reserveRatio : Q;
    djedPrice : Q;
    status : ProtocolStatus;
    totalReserves : Q;
    timestamp : Z;
    source : string }.

(** "Calculate synthetic metrics from blockchain data" down to the answer. *)
Definition deriveState (ergPrice : Q) (networkState blocksData : option json)
    (now : Z) : StateData :=
  let totalSupply :=
    Js.or_default (Engine.number_of (Engine.prop "supply" networkState))
                  97739924 in
  let recentBlocks := items_of blocksData in
  let avgTxCount := avgTxCount recentBlocks in
  let baseReserves := (totalSupply * (15 # 10000))%Q in
  let targetRatio := (500 + rem avgTxCount 200)%Q in
  let djedSupply := (baseReserves * ergPrice * 100 / targetRatio)%Q in
  let shenCirculation := (baseReserves * (3 # 10))%Q in
  let reservesUSD := (baseReserves * ergPrice)%Q in
  let reserveRatio := (reservesUSD / djedSupply * 100)%Q in
  {| ergPrice := ergPrice;
     baseReserves := baseReserves;
     reservesUSD := reservesUSD;
     djedSupply := djedSupply;
     circulatingDjed := djedSupply;
     shenCirculation := shenCirculation;
     reserveRatio := reserveRatio;
     djedPrice := 1;
     status := djedStateStatus reserveRatio;
     totalReserves := reservesUSD;
     timestamp := now;
     source := "ergo-blockchain-synthetic" |}.

(** The branch [if (endpoint === 'djed/state')]. *)
Definition djedState : M StateData :=
  do ergPrice <- priceFromSources;
  let ergPrice := Js.or_default ergPrice (145 # 100) in
  do infoResponse <- fetch (ERGO_API_BASE ++ "/info");
  do blocksResponse <- fetch (ERGO_API_BASE ++ "/blocks?limit=10");
  do now <- Date_now;
  ret (deriveState ergPrice (parsed_body infoResponse)
                   (parsed_body blocksResponse) now).

Definition statusName (s : ProtocolStatus) : string :=
  match s with
  | OPTIMAL => "OPTIMAL"
  | WARNING => "WARNING"
  | CRITICAL => "CRITICAL"
  end.

(** [NextResponse.json({ success: true, data: { ... } })] *)
Definition stateJson (d : StateData) : json :=
  JObj [("success", JBool true);
        ("data",
         JObj [("ergPrice", JNum (ergPrice d));
               ("baseReserves", JNum (baseReserves d));
               ("reservesUSD", JNum (reservesUSD d));
               ("djedSupply", JNum (djedSupply d));
               ("circulatingDjed", JNum (circulatingDjed d));
               ("shenCirculation", JNum (shenCirculation d));
               ("reserveRatio", JNum (reserveRatio d));
               ("djedPrice", JNum (djedPrice d));
               ("status", JStr (statusName (status d)));
               ("totalReserves", JNum (totalReserves d));
               ("timestamp", JNum (inject_Z (timestamp d)));
               ("source", JStr (source d))])].

(** *** The answers the embedding covers

    The route computes with whatever JSON it receives.  The embedding
    follows it on answers of the documented shape: a price, the supply and
    a transaction count are numbers when present, [items] is an array of
    block objects when present, and every number is 0 or of a magnitude
    between 10^-100 and 10^100, where the arithmetic of doubles neither
    overflows nor underflows.  Outside of these the code computes with
    coerced values, Infinity or NaN, or throws and answers with its
    constant fallback. *)

Definition inRange (q : Q) : Prop :=
  (q == 0)%Q \/
  (1 # 10 ^ 100 <= Qabs q)%Q /\ (Qabs q <= inject_Z (10 ^ 100))%Q.

Definition documentedNumber (v : option json) : Prop :=
  match v with
  | None => True
  | Some (JNum q) => inRange q
  | Some _ => False
  end.

Definition documentedBlock (block : json) : Prop :=
  match block with
  | JObj _ =>
      documentedNumber (Engine.prop "transactionsCount" (Some block))
  | _ => False
  end.

Definition documentedItems (v : option json) : Prop :=
  match v with
  | None => True
  | Some (JArr items) => Forall documentedBlock items
  | Some _ => False
  end.

(** A parsed body, read as the answer of any of the four upstream
    services. *)
Definition documentedBody (body : option json) : Prop :=
  documentedNumber (Engine.prop "usd" (Engine.prop "ergo" body)) /\
  documentedNumber
    (Engine.prop "price"
       (Engine.prop "coingecko:ergo" (Engine.prop "coins" body))) /\
  documentedNumber (Engine.prop "supply" body) /\
  documentedItems (Engine.prop "items" body).

Definition documented (w : World) : Prop :=
  forall n url, documentedBody (parsed_body (network w n url)).


(** A world whose every request is answered with [body], status 200. *)
Definition worldServing (body : json) : World :=
  mkWorld (fun _ => 0%Z) 0 (fun _ => 0%Q) 0
          (fun _ _ => HttpResponse true 200 "OK" (inr body)) 0 [].

End DjedRoute.

(** ** The simulation modal ([components/SimulationModal.tsx])

    The component's state is a record, a handler maps the state of the
    render it was created in to the next state and the callbacks it made
    on the parent, in order.  [determineSystemStatus] comes from
    [lib/calculations] and is a parameter here. *)

Module Simulation.

(** ['NORMAL' | 'CRITICAL'], the status the parent is told. *)
Inductive SystemStatus := NORMAL | CRITICAL.

Inductive SimulationScenario := none | flash_crash | oracle_freeze | bank_run.

Record ProtocolState := mkProtocolState
  { baseReserves : Q;
    stablecoinSupply : Q;
    currentRatio : option Q }.

Record Props := mkProps
  { currentPrice : Q;
    currentReserveRatio : Q }.

Record State := mkModal
  { simulatedPrice : Q;
    frozenPrice : option Q;
    forcedRatio : option Q;
    protocolState : option ProtocolState }.

Inductive Callback :=
| OnScenarioActivate (scenario : SimulationScenario)
| OnSimulatedPriceChange (price ratio : Q) (status : SystemStatus).

Definition setProtocolState (p : option ProtocolState) (st : State) : State :=
  mkModal (simulatedPrice st) (frozenPrice st) (forcedRatio st) p.

(** [x > 0] for a field that may be missing: [undefined > 0] is false. *)
Definition positive (x : option Q) : bool :=
  match x with
  | Some q => Js.gt q 0
  | None => false
  end.

(** [fetchProtocolState], given the answer to its request. *)
Definition fetchProtocolState (response : HttpResult) (st : State) : State :=
  match Engine.usable_body response with
  | None => st
  | Some body =>
      let data := Engine.prop "data" (Some body) in
      if Engine.truthy_opt (Engine.prop "success" (Some body))
         && Engine.truthy_opt data
      then
        let djedSupply := Engine.number_of (Engine.prop "djedSupply" data) in
        let notDeployed :=
          match Engine.prop "status" data with
          | Some (JStr s) => String.eqb s "NOT_DEPLOYED"
          | _ => false
          end in
        let noSupply :=
          match djedSupply with
          | Some q => Qeq_bool q 0
          | None => false
          end in
        if notDeployed || noSupply then setProtocolState None st
        else
          match Engine.number_of (Engine.prop "baseReserves" data), djedSupply
          with
          | Some reserves, Some supply =>
              if Js.gt reserves 0 && Js.gt supply 0
              then setProtocolState
                     (Some (mkProtocolState
                              reserves supply
                              (Engine.number_of
                                 (Engine.prop "reserveRatio" data))))
                     st
              else st
          | _, _ => st
          end
      else st
  end.

(** In rationals: without protocol state the value at [currentPrice = 0]
    is not that of the code (Infinity or NaN); the scenarios only run with
    a live price that is not 0. *)
Definition calculateRatioFromPrice (props : Props) (st : State) (price : Q)
    : Q :=
  match protocolState st with
  | None =>
      if Js.gt (currentReserveRatio props) 0
      then (currentReserveRatio props * (price / currentPrice props))%Q
      else 0%Q
  | Some p =>
      let reservesUSD := (baseReserves p * price)%Q in
      (reservesUSD / stablecoinSupply p * 100)%Q
  end.

Definition displayedRatio (props : Props) (st : State) : Q :=
  match forcedRatio st with
  | Some r => r
  | None => calculateRatioFromPrice props st (simulatedPrice st)
  end.

Section Handlers.

Variable determineSystemStatus : Q -> SystemStatus.

Definition handleSliderChange (props : Props) (st : State) (newPrice : Q)
    : State * list Callback :=
  let newRatio := calculateRatioFromPrice props st newPrice in
  let newStatus := determineSystemStatus newRatio in
  (mkModal newPrice (frozenPrice st) None (protocolState st),
   [OnSimulatedPriceChange newPrice newRatio newStatus]).

Definition handleScenarioActivate (props : Props) (st : State)
    (scenario : SimulationScenario) : State * list Callback :=
  let basePrice := currentPrice props in
  let baseRatio := currentReserveRatio props in
  if Js.falsy basePrice || Js.falsy baseRatio
  then (st, [OnScenarioActivate scenario])
  else
    match scenario with
    | flash_crash =>
        let crashPrice := (basePrice * (1 # 2))%Q in
        let newRatio := calculateRatioFromPrice props st crashPrice in
        (mkModal crashPrice (frozenPrice st) None (protocolState st),
         [OnScenarioActivate scenario;
          OnSimulatedPriceChange crashPrice newRatio
            (determineSystemStatus newRatio)])
    | oracle_freeze =>
        (mkModal (simulatedPrice st) (Some (simulatedPrice st))
                 (forcedRatio st) (protocolState st),
         [OnScenarioActivate scenario])
    | bank_run =>
        let bankRunRatio := 350%Q in
        (mkModal (simulatedPrice st) (frozenPrice st) (Some bankRunRatio)
                 (protocolState st),
         [OnScenarioActivate scenario;
          OnSimulatedPriceChange (simulatedPrice st) bankRunRatio
            CRITICAL])
    | none =>
        (mkModal basePrice None None (protocolState st),
         [OnScenarioActivate scenario;
          OnSimulatedPriceChange basePrice baseRatio
            (determineSystemStatus baseRatio)])
    end.

End Handlers.

(** The ratio the parent was last told, if a handler told it one. *)
Definition notifiedRatio (callbacks : list Callback) : option Q :=
  fold_left (fun last c =>
               match c with
               | OnSimulatedPriceChange _ ratio _ => Some ratio
               | OnScenarioActivate _ => last
               end)
            callbacks None.

End Simulation.

(** * Properties *)

(** ** Comparisons and [Math.max] on rationals *)

Module JsFacts.

Lemma lt_iff a b : Js.lt a b = true <-> (a < b)%Q.
Proof.
  unfold Js.lt. rewrite negb_true_iff, <- not_true_iff_false, Qle_bool_iff.
  split; [apply Qnot_le_lt | apply Qlt_not_le].
Qed.

Lemma gt_iff a b : Js.gt a b = true <-> (b < a)%Q.
Proof. apply lt_iff. Qed.

Lemma ge_iff a b : Js.ge a b = true <-> (b <= a)%Q.
Proof. apply Qle_bool_iff. Qed.

Lemma ge_false_iff a b : Js.ge a b = false <-> (a < b)%Q.
Proof.
  unfold Js.ge. rewrite <- not_true_iff_false, Qle_bool_iff.
  split; [apply Qnot_le_lt | apply Qlt_not_le].
Qed.

Lemma gt_false_iff a b : Js.gt a b = false <-> (a <= b)%Q.
Proof. unfold Js.gt, Js.lt. rewrite negb_false_iff. apply Qle_bool_iff. Qed.



End JsFacts.

(** ** Computations in the world *)

(** A computation is determined by its value and the world it leaves. *)
Lemma run_bind {A B} (m : M A) (k : A -> M B) (w : World) :
  bind m k w = k (fst (m w)) (snd (m w)).
Proof. unfold bind. now destruct (m w). Qed.

Lemma mapM_length {A B} (f : A -> M B) (xs : list A) (w : World) :
  length (fst (mapM f xs w)) = length xs.
Proof.
  revert w. induction xs as [| x xs IH]; intros w; [reflexivity |].
  cbn [mapM]. rewrite !run_bind. cbn. now rewrite IH.
Qed.

(** ** Status bands *)

(** C2.  The status the [djed/state] route reports is OPTIMAL exactly for
    ratios of at least 400, WARNING exactly for ratios from 200 up to but
    excluding 400, and CRITICAL exactly for ratios below 200. *)
Theorem djedStateStatus_bands (r : Q) :
  (djedStateStatus r = OPTIMAL <-> (400 <= r)%Q) /\
  (djedStateStatus r = WARNING <-> (200 <= r)%Q /\ (r < 400)%Q) /\
  (djedStateStatus r = CRITICAL <-> (r < 200)%Q).
Proof.
  unfold djedStateStatus.
  destruct (Js.ge r 400) eqn:E4; [| destruct (Js.ge r 200) eqn:E2];
    repeat match goal with
           | H : Js.ge _ _ = true |- _ => apply JsFacts.ge_iff in H
           | H : Js.ge _ _ = false |- _ => apply JsFacts.ge_false_iff in H
           end;
    repeat split; intros; try discriminate; try lra.
Qed.

(** ** Arbitrage page *)

Module ArbitrageFacts.

Import Arbitrage.



(** What the page computes while no DEX price is loaded (price 0 against
    the protocol price 1), and with a trade amount of 0 there. *)
Example calculateNetProfit_at_zero_price :
  Numeric.calculateNetProfit defaultProfitEnv 0 1 (- (1)) None = Js.Infinity /\
  Numeric.calculateNetProfit defaultProfitEnv 0 1 (- (1)) (Some 0%Q) = Js.NaN /\
  Js.number_lt (Numeric.calculateNetProfit defaultProfitEnv 0 0 0 None) 0
  = false.
Proof. repeat split. Qed.

(** With the default settings, a 2% spread on a 1000 USD trade nets
    11.107..., a 0.5% spread nets nothing. *)
Example calculateNetProfit_samples :
  (calculateNetProfit defaultProfitEnv (102 # 100) 1 (2 # 100) None
   == 1000 / (102 # 100) * (2 # 100) - (17 # 2))%Q /\
  calculateNetProfit defaultProfitEnv (1005 # 1000) 1 (5 # 1000) None = 0%Q.
Proof. split; vm_compute; reflexivity. Qed.

Lemma withStatus_same (opp : ArbitrageOpportunity) :
  withStatus (status opp) opp = opp.
Proof. now destruct opp. Qed.

Lemma withStatus_twice s1 s2 (opp : ArbitrageOpportunity) :
  withStatus s1 (withStatus s2 opp) = withStatus s1 opp.
Proof. reflexivity. Qed.

(** The expiry scan changes nothing but the status column. *)
Lemma expireIfOld_entry (opp : ArbitrageOpportunity) (w : World) :
  withStatus detected (fst (expireIfOld opp w)) = withStatus detected opp.
Proof. reflexivity. Qed.

Lemma mapM_expire_sameEntries (h : list ArbitrageOpportunity) (w : World) :
  sameEntries (fst (mapM expireIfOld h w)) h.
Proof.
  unfold sameEntries. revert w.
  induction h as [| opp h IH]; intros w; [reflexivity |].
  cbn [mapM]. rewrite !run_bind. cbn [ret fst map].
  now rewrite IH, expireIfOld_entry.
Qed.

Lemma sameEntries_length (h1 h2 : list ArbitrageOpportunity) :
  sameEntries h1 h2 -> length h1 = length h2.
Proof.
  unfold sameEntries. intros E.
  rewrite <- (length_map (withStatus detected) h1), E. apply length_map.
Qed.

(** What the updater does, branch by branch. *)
Lemma recordOpportunity_replace newOpp sp lastOpp rest w :
  sameOpportunity lastOpp sp (fst (Date_now w)) = true ->
  fst (recordOpportunity newOpp sp (lastOpp :: rest) w) = newOpp :: rest.
Proof.
  unfold sameOpportunity, recordOpportunity, isSignificantChange.
  intros [Hsp Hage]%andb_prop. rewrite run_bind.
  unfold Js.gt, Js.lt. unfold Js.le in Hsp. rewrite Hsp. cbn [negb].
  rewrite run_bind. cbn [ret fst snd].
  destruct (Z.gtb_spec (fst (Date_now w) - timestamp lastOpp) 60000);
    [apply Z.leb_le in Hage; lia | reflexivity].
Qed.

Lemma recordOpportunity_prepend newOpp sp prev w :
  match prev with
  | [] => True
  | lastOpp :: _ => sameOpportunity lastOpp sp (fst (Date_now w)) = false
  end ->
  sameEntries (fst (recordOpportunity newOpp sp prev w))
              (firstn 20 (newOpp :: prev)).
Proof.
  unfold recordOpportunity, isSignificantChange. intros H. rewrite run_bind.
  destruct prev as [| lastOpp rest].
  { cbn [ret fst snd]. apply mapM_expire_sameEntries. }
  unfold sameOpportunity, Js.le in H. unfold Js.gt, Js.lt.
  destruct (Qle_bool _ (1 # 10)); cbn [negb andb] in *.
  - rewrite run_bind. cbn [ret fst snd].
    destruct (Z.gtb_spec (fst (Date_now w) - timestamp lastOpp) 60000);
      [apply mapM_expire_sameEntries | apply Z.leb_gt in H; lia].
  - cbn [ret fst snd]. apply mapM_expire_sameEntries.
Qed.

(** C4, as amended.  On every tick where a signal exists and
    |spreadPercent| >= 0.5, the update compares the new reading with the
    most recent stored entry and replaces that entry in place if and only
    if the spread moved by at most 0.1 percentage points and at most 60
    seconds (60000 ms, inclusive) elapsed since its detection; otherwise,
    and when the history is empty, it prepends a new entry and truncates the
    list to the most recent 20. *)
Theorem historyEffect_update_policy (env : ProfitEnv) (r : DexReading)
    (prev : list ArbitrageOpportunity) (w : World) :
  hasSignal r = true ->
  updatePolicy sameOpportunity env r prev w.
Proof.
  intros Hsig. unfold updatePolicy, historyEffect. rewrite Hsig, run_bind.
  destruct (newOpportunity env r w) as [newOpp w1]. cbn [fst snd].
  destruct prev as [| lastOpp rest].
  - now apply recordOpportunity_prepend.
  - destruct (sameOpportunity lastOpp _ _) eqn:E.
    + now apply recordOpportunity_replace.
    + now apply recordOpportunity_prepend.
Qed.

Lemma historyEffect_update_policy_witness :
  hasSignal (mintReading 1) = true /\
  updatePolicy sameOpportunity defaultProfitEnv (mintReading 1)
               [storedAt 0 1] (worldAt 60000).
Proof.
  split; [reflexivity |].
  apply (historyEffect_update_policy defaultProfitEnv (mintReading 1)
           [storedAt 0 1] (worldAt 60000)).
  reflexivity.
Defined.

(** C4, as stated, fails when exactly 60 seconds have elapsed: the spread
    has not moved, "less than 60 seconds" is false, and yet the entry is
    replaced in place instead of a second one being prepended. *)
Lemma update_policy_spec_fails_at_60s :
  hasSignal (mintReading 1) = true /\
  ~ updatePolicy sameOpportunity_spec defaultProfitEnv (mintReading 1)
                 [storedAt 0 1] (worldAt 60000).
Proof.
  split; [reflexivity |].
  intros H. apply sameEntries_length in H. vm_compute in H. discriminate.
Qed.

(** The two readings of the counterexample, spelled out. *)
Example replace_at_60s :
  sameOpportunity_spec (storedAt 0 1) 1 60000 = false /\
  map timestamp
      (fst (historyEffect defaultProfitEnv (mintReading 1) [storedAt 0 1]
                          (worldAt 60000)))
  = [60000%Z].
Proof. split; vm_compute; reflexivity. Qed.

(** *** Expiry *)

(** The expiry scan itself honours the 300-second bound: an entry aged
    301000 ms flips, one aged 299000 ms does not. *)
Example expireIfOld_boundary :
  status (fst (expireIfOld (storedAt 0 1) (worldAt 301000))) = expired /\
  status (fst (expireIfOld (storedAt 0 1) (worldAt 299000))) = detected /\
  status (fst (expireIfOld (storedAt 0 1) (worldAt 300000))) = detected.
Proof. split; [| split]; vm_compute; reflexivity. Qed.

(** On a tick that prepends, every stored entry goes through the scan. *)
Lemma mapM_expire_status (h : list ArbitrageOpportunity) (w : World) :
  (forall k, clock w k = clock w 0%nat) ->
  map status (fst (mapM expireIfOld h w))
  = map (fun opp =>
           if (clock w 0%nat - timestamp opp >? 300000)%Z
              && is_detected (status opp)
           then expired else status opp) h.
Proof.
  intros Hconst.
  assert (forall w', clock w' = clock w ->
            map status (fst (mapM expireIfOld h w'))
            = map (fun opp =>
                     if (clock w 0%nat - timestamp opp >? 300000)%Z
                        && is_detected (status opp)
                     then expired else status opp) h) as Hgen.
  { induction h as [| opp h IH]; intros w' Hw'; [reflexivity |].
    cbn [mapM]. rewrite !run_bind. cbn [ret fst snd map]. f_equal.
    - unfold expireIfOld. rewrite run_bind. cbn [ret fst]. unfold Date_now.
      cbn [fst status withStatus]. now rewrite Hw', Hconst.
    - apply IH. now rewrite <- Hw'. }
  now apply Hgen.
Qed.

(** The history of the failing run: a fresh entry in front of one that was
    detected 301 seconds before the tick. *)
Example stale_history_ages :
  map (fun opp => (301000 - timestamp opp)%Z) [storedAt 300000 1; storedAt 0 3]
  = [1000%Z; 301000%Z].
Proof. reflexivity. Qed.

(** C5, at the failing input.  A tick that refreshes the most recent entry
    in place (spread unchanged, entry one second old) returns without the
    expiry scan: the second entry, DETECTED and 301000 ms old, is still
    DETECTED afterwards.  The same history on a tick that prepends (spread
    moved by 1) has that entry EXPIRED. *)
Theorem refresh_tick_skips_expiry :
  hasSignal (mintReading 1) = true /\
  map (fun opp => (timestamp opp, status opp))
      (fst (historyEffect defaultProfitEnv (mintReading 1)
                          [storedAt 300000 1; storedAt 0 3] (worldAt 301000)))
  = [(301000%Z, detected); (0%Z, detected)] /\
  map (fun opp => (timestamp opp, status opp))
      (fst (historyEffect defaultProfitEnv (mintReading 2)
                          [storedAt 300000 1; storedAt 0 3] (worldAt 301000)))
  = [(301000%Z, detected); (300000%Z, detected); (0%Z, expired)].
Proof. split; [| split]; vm_compute; reflexivity. Qed.

(** When no signal exists every DETECTED entry is expired, whatever its
    age. *)
Lemma expireAll_status (prev : list ArbitrageOpportunity) :
  Forall (fun opp => status opp = expired) (expireAll prev).
Proof.
  unfold expireAll. apply Forall_map, Forall_forall. intros opp _.
  cbn. now destruct (status opp).
Qed.

(** *** The bound on the history *)

Lemma expireAll_length (prev : list ArbitrageOpportunity) :
  length (expireAll prev) = length prev.
Proof. apply length_map. Qed.

Lemma recordOpportunity_length newOpp sp prev w :
  (length prev <= 20)%nat ->
  (length (fst (recordOpportunity newOpp sp prev w)) <= 20)%nat.
Proof.
  intros Hlen. unfold recordOpportunity. rewrite run_bind.
  destruct (fst (isSignificantChange prev sp w)) eqn:E.
  - rewrite mapM_length. apply firstn_le_length.
  - destruct prev as [| lastOpp rest]; [discriminate E |].
    change (skipn 1 (lastOpp :: rest)) with rest.
    cbn [ret fst length] in *. lia.
Qed.

Lemma historyEffect_length env r prev w :
  (length prev <= 20)%nat ->
  (length (fst (historyEffect env r prev w)) <= 20)%nat.
Proof.
  intros Hlen. unfold historyEffect. destruct (hasSignal r).
  - rewrite run_bind. now apply recordOpportunity_length.
  - cbn [ret fst]. now rewrite expireAll_length.
Qed.

Lemma runTicks_length env rs prev w :
  (length prev <= 20)%nat ->
  (length (fst (runTicks env rs prev w)) <= 20)%nat.
Proof.
  revert prev w. induction rs as [| r rs IH]; intros prev w Hlen; [easy |].
  cbn [runTicks]. rewrite run_bind. apply IH. now apply historyEffect_length.
Qed.

Lemma significantTick_prepends env r prev w :
  significantTick env r prev w = true ->
  sameEntries (fst (historyEffect env r prev w))
              (firstn 20 (fst (newOpportunity env r w) :: prev)).
Proof.
  unfold significantTick, historyEffect. intros [Hsig Hchg]%andb_prop.
  rewrite Hsig, run_bind.
  destruct (newOpportunity env r w) as [newOpp w1]. cbn [fst snd] in *.
  unfold recordOpportunity. rewrite run_bind, Hchg.
  apply mapM_expire_sameEntries.
Qed.

Lemma firstn_app_firstn {A} (n : nat) (xs ys : list A) :
  firstn n (xs ++ firstn n ys) = firstn n (xs ++ ys).
Proof.
  rewrite !firstn_app, firstn_firstn. now rewrite Nat.min_l by lia.
Qed.

(** A run of significant ticks stacks the opportunities it creates on top
    of the history it started from, and keeps the first 20 of the stack. *)
Lemma addedBy_stack env rs :
  forall prev w acc added,
    (length prev <= 20)%nat ->
    addedBy env rs prev w acc = Some added ->
    exists news,
      added = news ++ acc /\ length news = length rs /\
      sameEntries (fst (runTicks env rs prev w)) (firstn 20 (news ++ prev)).
Proof.
  induction rs as [| r rs IH]; intros prev w acc added Hprev Hadd.
  - exists []. cbn [addedBy] in Hadd. injection Hadd as <-.
    repeat split. cbn [runTicks ret fst app].
    now rewrite firstn_all2 by lia.
  - cbn [addedBy] in Hadd.
    destruct (significantTick env r prev w) eqn:Hsig; [| discriminate].
    pose proof (significantTick_prepends _ _ _ _ Hsig) as Hstep.
    cbn [runTicks]. rewrite run_bind.
    destruct (historyEffect env r prev w) as [next w']. cbn [fst snd] in *.
    assert (length next <= 20)%nat as Hnext.
    { rewrite (sameEntries_length _ _ Hstep). apply firstn_le_length. }
    destruct (IH _ _ _ _ Hnext Hadd) as (news & -> & Hlen & Hrun).
    exists (news ++ [fst (newOpportunity env r w)]).
    rewrite <- app_assoc, length_app, Hlen. cbn [app length].
    split; [reflexivity |]. split; [lia |].
    unfold sameEntries in *. rewrite Hrun.
    rewrite <- !firstn_map, !map_app, Hstep, <- firstn_map.
    rewrite firstn_app_firstn, <- app_assoc. reflexivity.
Qed.

(** C6.  Starting from the empty history the page is created with, no
    sequence of ticks ever leaves more than 20 entries; and after 25
    consecutive significant-change ticks the history has exactly 20 entries,
    which are, newest first and up to their status, the 20 opportunities
    created last (the five oldest are gone). *)
Theorem history_bounded (env : ProfitEnv) :
  (forall rs w,
     (length (fst (runTicks env rs initialHistory w)) <= 20)%nat) /\
  (forall rs w added,
     length rs = 25%nat ->
     addedBy env rs initialHistory w [] = Some added ->
     let history := fst (runTicks env rs initialHistory w) in
     length added = 25%nat /\
     length history = 20%nat /\
     sameEntries history (firstn 20 added)).
Proof.
  split.
  - intros rs w. apply runTicks_length. cbn. lia.
  - intros rs w added Hlen Hadd. cbv zeta.
    destruct (addedBy_stack env rs initialHistory w [] added) as
      (news & -> & Hnews & Hrun); [cbn; lia | exact Hadd |].
    rewrite !app_nil_r in *. rewrite Hnews, Hlen.
    split; [reflexivity |]. split; [| exact Hrun].
    rewrite (sameEntries_length _ _ Hrun), firstn_length_le; [reflexivity | lia].
Qed.

Lemma history_bounded_witness :
  length (alternating 25) = 25%nat /\
  (exists added,
     addedBy defaultProfitEnv (alternating 25) initialHistory (worldAt 0) []
     = Some added /\
     length (fst (runTicks defaultProfitEnv (alternating 25) initialHistory
                           (worldAt 0))) = 20%nat /\
     sameEntries (fst (runTicks defaultProfitEnv (alternating 25)
                                initialHistory (worldAt 0)))
                 (firstn 20 added)).
Proof.
  split; [reflexivity |].
  destruct (addedBy defaultProfitEnv (alternating 25) initialHistory
                    (worldAt 0) []) as [added |] eqn:E;
    [| vm_compute in E; discriminate E].
  exists added. split; [reflexivity |].
  exact (proj2 (proj2 (history_bounded defaultProfitEnv)
                  (alternating 25) (worldAt 0) added eq_refl E)).
Defined.

End ArbitrageFacts.

(** ** Workflow engine *)

Module EngineFacts.

Import Engine.

Lemma size_list_to_set_le (l : list string) :
  (size (list_to_set l : gset string) <= length l)%nat.
Proof.
  induction l as [| x l IH];
    [now rewrite list_to_set_nil, size_empty |].
  rewrite list_to_set_cons, size_union_alt, size_singleton. cbn [length].
  assert (list_to_set l ∖ {[x]} ⊆ (list_to_set l : gset string)) as Hsub
    by set_solver.
  apply subseteq_size in Hsub. lia.
Qed.

Lemma unvisited_emptyRun (workflow : Workflow) :
  (unvisited workflow emptyRun <= length (nodes workflow))%nat.
Proof.
  unfold unvisited, workflowIds, emptyRun. cbn [executedNodes].
  rewrite difference_empty_L.
  etransitivity; [apply size_list_to_set_le |]. now rewrite length_map.
Qed.

Lemma unvisited_mono (workflow : Workflow) (run run' : Run) :
  executedNodes run ⊆ executedNodes run' ->
  (unvisited workflow run' <= unvisited workflow run)%nat.
Proof. intros H. unfold unvisited. apply subseteq_size. set_solver. Qed.

Lemma unvisited_pushed (workflow : Workflow) (run : Run) e (node : WorkflowNode) :
  node ∈ nodes workflow ->
  id node ∉ executedNodes run ->
  (unvisited workflow (pushed run e (id node)) < unvisited workflow run)%nat.
Proof.
  intros Hin Hfresh. unfold unvisited, pushed. cbn [executedNodes].
  apply subset_size.
  assert (id node ∈ workflowIds workflow) as Hid.
  { unfold workflowIds. apply elem_of_list_to_set, list_elem_of_fmap. eauto. }
  set_solver.
Qed.

Lemma consistent_emptyRun : consistent emptyRun.
Proof.
  split; [constructor |]. intros i. cbn. set_solver.
Qed.

Lemma consistent_pushed (run : Run) e i :
  consistent run -> nodeId e = i -> i ∉ executedNodes run ->
  consistent (pushed run e i).
Proof.
  intros [Hnd Hiff] He Hfresh. unfold consistent, pushed, recordedIds in *.
  cbn [executions executedNodes]. rewrite map_app. cbn [map]. rewrite He.
  split.
  - apply NoDup_app. split; [exact Hnd |]. split; [| apply NoDup_singleton].
    intros j Hj ->%list_elem_of_singleton. apply Hfresh, Hiff, Hj.
  - intros j. rewrite elem_of_app, list_elem_of_singleton, Hiff. set_solver.
Qed.

Lemma extends_refl run : extends run run.
Proof.
  split; [done |]. split; [exists []; now rewrite app_nil_r |]. now split.
Qed.

Lemma extends_trans run1 run2 run3 :
  extends run1 run2 -> extends run2 run3 -> extends run1 run3.
Proof.
  intros (S1 & [m1 E1] & C1 & F1) (S2 & [m2 E2] & C2 & F2).
  split; [set_solver |]. split; [| split; auto].
  exists (m1 ++ m2). now rewrite E2, E1, app_assoc.
Qed.

Lemma extends_pushed run e i :
  nodeId e = i -> i ∉ executedNodes run -> nodeRecord e ->
  extends run (pushed run e i).
Proof.
  intros He Hfresh Hrec. split; [cbn; set_solver |].
  split; [now exists [e] |]. split.
  - intros Hc. now apply consistent_pushed.
  - intros HF. cbn. apply Forall_app. split; [exact HF |]. now constructor.
Qed.

(** A loop over nodes of the workflow returns if each call does. *)
Lemma forEach_returns (workflow : Workflow)
    (f : WorkflowNode -> Run -> World -> option (Run * World))
    (bound : nat) :
  (forall n run w,
     n ∈ nodes workflow -> (unvisited workflow run < bound)%nat ->
     exists run' w', f n run w = Some (run', w') /\ extends run run') ->
  forall ns run w,
    (forall n, n ∈ ns -> n ∈ nodes workflow) ->
    (unvisited workflow run < bound)%nat ->
    exists run' w', forEach f ns run w = Some (run', w') /\ extends run run'.
Proof.
  intros Hf. induction ns as [| n ns IHns]; intros run w Hns Hbound.
  - eexists _, _. split; [reflexivity | apply extends_refl].
  - cbn [forEach].
    destruct (Hf n run w) as (run2 & w2 & -> & Hext2);
      [apply Hns; left | exact Hbound |].
    destruct (IHns run2 w2) as (run3 & w3 & -> & Hext3).
    + intros n' Hn'. apply Hns. now right.
    + pose proof (unvisited_mono workflow run run2 (proj1 Hext2)). lia.
    + eexists _, _. split; [reflexivity |]. eapply extends_trans; eauto.
Qed.

Section Traversal.

Variable APPLET_DEFINITIONS : string -> AppletDefinition.
Variable workflow : Workflow.
Variable realTimeData : RealTimeData.

#[local] Abbreviation performNode :=
  (performNode APPLET_DEFINITIONS realTimeData).
#[local] Abbreviation executeNode :=
  (executeNode APPLET_DEFINITIONS workflow realTimeData).
#[local] Abbreviation connectedNodes := (connectedNodes workflow).

(** The record of a node, whatever the world answers. *)
Lemma performNode_record (node : WorkflowNode) (w : World) :
  exists e w1,
    performNode node w = (shouldExecute node realTimeData, e, w1) /\
    nodeId e = id node /\
    nodeName e = name (APPLET_DEFINITIONS (type node)) /\
    status e = (if shouldExecute node realTimeData then success else skipped) /\
    (shouldExecute node realTimeData = false -> output e = None) /\
    nodeRecord e.
Proof.
  unfold Engine.performNode, nodeRecord, bind, ret, Date_now, Math_random, sleep.
  destruct (shouldExecute node realTimeData) eqn:E.
  - destruct (generateOutput (type node) realTimeData _) as [o w1].
    eexists _, _. split; [reflexivity |]. cbn.
    repeat split; try discriminate. left. now split.
  - eexists _, _. split; [reflexivity |]. cbn.
    repeat split. right. now split.
Qed.

Lemma executeNode_visited fuel node run w :
  id node ∈ executedNodes run ->
  executeNode (S fuel) node run w = Some (run, w).
Proof. intros H. cbn [Engine.executeNode]. now rewrite decide_True. Qed.

Lemma executeNode_fresh fuel node run w :
  id node ∉ executedNodes run ->
  executeNode (S fuel) node run w
  = let '(shouldExecute, execution, w1) := performNode node w in
    if shouldExecute : bool then
      forEach (executeNode fuel) (connectedNodes node)
              (pushed run execution (id node)) w1
    else Some (pushed run execution (id node), w1).
Proof. intros H. cbn [Engine.executeNode]. now rewrite decide_False. Qed.

Lemma connectedNodes_in node n :
  n ∈ connectedNodes node -> n ∈ nodes workflow.
Proof.
  unfold Engine.connectedNodes. intros (c & _ & Hfind)%list_elem_of_omap.
  apply find_some in Hfind as [Hin _]. now apply list_elem_of_In.
Qed.

(** Once [fuel] exceeds the number of unvisited ids, [executeNode] returns. *)
Lemma executeNode_returns fuel :
  forall node run w,
    node ∈ nodes workflow ->
    (unvisited workflow run < fuel)%nat ->
    exists run' w',
      executeNode fuel node run w = Some (run', w') /\ extends run run'.
Proof.
  induction fuel as [| fuel IH]; intros node run w Hin Hfuel; [lia |].
  destruct (decide (id node ∈ executedNodes run)) as [Hv | Hv].
  { rewrite executeNode_visited by exact Hv.
    eexists _, _. split; [reflexivity | apply extends_refl]. }
  rewrite executeNode_fresh by exact Hv.
  destruct (performNode_record node w) as (e & w1 & -> & Hid & _ & _ & _ & Hrec).
  pose proof (extends_pushed run e (id node) Hid Hv Hrec) as Hext.
  pose proof (unvisited_pushed workflow run e node Hin Hv) as Hlt.
  destruct (shouldExecute node realTimeData);
    [| eexists _, _; split; [reflexivity | exact Hext]].
  destruct (forEach_returns workflow (executeNode fuel) fuel IH
              (connectedNodes node)
              (pushed run e (id node)) w1)
    as (run' & w' & -> & Hext'); [apply connectedNodes_in | lia |].
  eexists _, _. split; [reflexivity |]. eapply extends_trans; eauto.
Qed.

(** The fuel only bounds the depth: once [executeNode] returns, more fuel
    returns the same run. *)
Lemma forEach_mono (f g : WorkflowNode -> Run -> World -> option (Run * World)) :
  (forall n run w r, f n run w = Some r -> g n run w = Some r) ->
  forall ns run w r, forEach f ns run w = Some r -> forEach g ns run w = Some r.
Proof.
  intros Hfg. induction ns as [| n ns IH]; intros run w r; [easy |].
  cbn [forEach]. destruct (f n run w) as [[run1 w1] |] eqn:E; [| easy].
  rewrite (Hfg _ _ _ _ E). apply IH.
Qed.

Lemma executeNode_more_fuel fuel :
  forall node run w r,
    executeNode fuel node run w = Some r ->
    executeNode (S fuel) node run w = Some r.
Proof.
  induction fuel as [| fuel IH]; intros node run w r; [easy |].
  destruct (decide (id node ∈ executedNodes run)) as [Hv | Hv].
  { now rewrite !executeNode_visited by exact Hv. }
  rewrite (executeNode_fresh fuel), (executeNode_fresh (S fuel)) by exact Hv.
  destruct (performNode node w) as [[go e] w1].
  destruct go; [| easy]. apply forEach_mono, IH.
Qed.

End Traversal.

Lemma entryNodes_in (workflow : Workflow) (n : WorkflowNode) :
  n ∈ entryNodes workflow -> n ∈ nodes workflow.
Proof.
  unfold entryNodes.
  destruct (List.filter _ (nodes workflow)) as [| e es] eqn:E.
  - destruct (nodes workflow) as [| first rest]; [easy |].
    intros ->%list_elem_of_singleton. now left.
  - rewrite <- E. intros Hn%list_elem_of_In.
    apply filter_In in Hn as [Hn _]. now apply list_elem_of_In.
Qed.

Lemma nodeRecord_not_failed (records : list NodeExecution) :
  Forall nodeRecord records ->
  existsb (fun n => is_failed (status n)) records = false.
Proof.
  induction 1 as [| e es [[[He _] | [He _]] _] _ IH]; [reflexivity | |];
    cbn [existsb]; now rewrite He.
Qed.

(** Past the policy gate [executeWorkflow] returns a log whose records are
    those of a traversal that started from the empty run. *)
Lemma executeWorkflow_traverses APPLET_DEFINITIONS workflow protocolStatus w :
  is_critical protocolStatus = false ->
  exists run log w',
    executeWorkflow APPLET_DEFINITIONS workflow protocolStatus w
    = Some (log, w') /\
    nodeExecutions log = executions run /\
    consistent run /\
    Forall nodeRecord (executions run) /\
    log_status log = completed.
Proof.
  intros Hgate. unfold executeWorkflow. rewrite Hgate.
  destruct (Date_now w) as [startTime w0].
  destruct (fetchRealTimeData w0) as [realTimeData w1].
  destruct (forEach_returns workflow
              (executeNode APPLET_DEFINITIONS workflow realTimeData
                           (S (length (nodes workflow))))
              (S (length (nodes workflow)))
              (executeNode_returns APPLET_DEFINITIONS workflow realTimeData _)
              (entryNodes workflow) emptyRun w1)
    as (run & w2 & Hrun & _ & _ & Hcons & Hrec).
  { apply entryNodes_in. }
  { pose proof (unvisited_emptyRun workflow). lia. }
  fold emptyRun. rewrite Hrun.
  destruct (Date_now w2) as [t_total w3]. destruct (Date_now w3) as [t_id w4].
  specialize (Hcons consistent_emptyRun).
  specialize (Hrec (Forall_nil_2 _)).
  eexists run, _, _. split; [reflexivity |]. cbn [nodeExecutions log_status].
  rewrite (nodeRecord_not_failed _ Hrec). auto.
Qed.

(** The policy gate: four clock readings and nothing else. *)
Lemma executeWorkflow_gate APPLET_DEFINITIONS workflow w :
  executeWorkflow APPLET_DEFINITIONS workflow (Some CRITICAL) w
  = let (startTime, w1) := Date_now w in
    let (t_end, w2) := Date_now w1 in
    let (t_id, w3) := Date_now w2 in
    let (t_total, w4) := Date_now w3 in
    Some ({| log_id := "exec_" +:+ pretty t_id;
             workflowId := workflow_id workflow;
             workflowName := workflow_name workflow;
             timestamp := startTime;
             nodeExecutions :=
               [ {| nodeId := "POLICY_ENFORCEMENT";
                    nodeName := "[SENTINEL_POLICY]";
                    status := failed;
                    startTime := startTime;
                    endTime := t_end;
                    output := None;
                    error := Some blocked_message |} ];
             totalDuration := t_total - startTime;
             log_status := log_failed |}, w4).
Proof. reflexivity. Qed.

(** C1.  When protocolStatus is CRITICAL, [executeWorkflow] returns, for
    every workflow (with or without nodes), a log with exactly one
    execution record; that record has status failed and names the Sentinel
    policy gate as the failing node; the log's overall status is failed;
    and no node was executed: there is no per-node record, no timer was
    set, no random number drawn and no request made. *)
Theorem executeWorkflow_critical (APPLET_DEFINITIONS : string -> AppletDefinition)
    (workflow : Workflow) (w : World) :
  exists log w',
    executeWorkflow APPLET_DEFINITIONS workflow (Some CRITICAL) w
    = Some (log, w') /\
    (exists record,
       nodeExecutions log = [record] /\
       status record = failed /\
       nodeId record = "POLICY_ENFORCEMENT" /\
       nodeName record = "[SENTINEL_POLICY]" /\
       output record = None /\
       error record = Some blocked_message) /\
    log_status log = log_failed /\
    workflowId log = workflow_id workflow /\
    events w' = events w /\ draws w' = draws w /\ requests w' = requests w.
Proof.
  rewrite executeWorkflow_gate. eexists _, _. split; [reflexivity |]. cbn.
  split; [eexists; repeat split |]. repeat split.
Qed.

(** A CRITICAL run of a four-node workflow, evaluated. *)
Example executeWorkflow_critical_diamond :
  option_map
    (fun '(log, w') =>
       (map nodeId (nodeExecutions log), log_status log, events w'))
    (executeWorkflow sampleDefinitions
       (diamond "djed_monitor" "djed_sim" "djed_sentinel" "djed_ledger"
                None None None None)
       (Some CRITICAL) (worldAt 0))
  = Some (["POLICY_ENFORCEMENT"], log_failed, []).
Proof. vm_compute. reflexivity. Qed.

(** C10.  For every workflow and every protocolStatus other than CRITICAL,
    [executeWorkflow] returns a log in which every per-node record has
    status success or skipped, never failed, and whose overall status is
    completed; hence a log with overall status failed can only come from
    the CRITICAL policy gate. *)
Theorem executeWorkflow_completes (APPLET_DEFINITIONS : string -> AppletDefinition)
    (workflow : Workflow) (protocolStatus : option ProtocolStatus) (w : World) :
  (protocolStatus <> Some CRITICAL ->
   exists log w',
     executeWorkflow APPLET_DEFINITIONS workflow protocolStatus w
     = Some (log, w') /\
     Forall (fun e => status e = success \/ status e = skipped)
            (nodeExecutions log) /\
     log_status log = completed) /\
  (forall log w',
     executeWorkflow APPLET_DEFINITIONS workflow protocolStatus w
     = Some (log, w') ->
     log_status log = log_failed ->
     protocolStatus = Some CRITICAL).
Proof.
  assert (protocolStatus <> Some CRITICAL -> is_critical protocolStatus = false)
    as Hgate.
  { destruct protocolStatus as [[] |]; try reflexivity. congruence. }
  split.
  - intros Hps.
    destruct (executeWorkflow_traverses APPLET_DEFINITIONS workflow
                protocolStatus w (Hgate Hps))
      as (run & log & w' & Hrun & Hrec & _ & Hok & Hstatus).
    exists log, w'. split; [exact Hrun |]. split; [| exact Hstatus].
    rewrite Hrec. eapply Forall_impl; [exact Hok |].
    intros e [[[He _] | [He _]] _]; auto.
  - intros log w' Hrun Hfailed.
    destruct (is_critical protocolStatus) eqn:Hps;
      [now destruct protocolStatus as [[] |] |].
    destruct (executeWorkflow_traverses APPLET_DEFINITIONS workflow
                protocolStatus w Hps)
      as (_ & log0 & w0 & Hrun0 & _ & _ & _ & Hstatus).
    congruence.
Qed.

Lemma evaluateCondition_missing (c : Condition) (realTimeData : RealTimeData) :
  reserveRatio realTimeData = None \/ djedPrice realTimeData = None ->
  evaluateCondition c realTimeData = false.
Proof.
  unfold evaluateCondition. intros [-> | ->]; [reflexivity |].
  now destruct (reserveRatio realTimeData).
Qed.

(** C8.  For a node whose trigger condition has type dsi_below, dsi_above,
    price_below or price_above: if the snapshot lacks the reserve ratio or
    the protocol price, the condition evaluates to false, and when
    [executeNode] enters the node (it has not been visited before) it
    appends one record for it with status skipped and null output, and
    goes no further. *)
Theorem missing_metrics_skip (APPLET_DEFINITIONS : string -> AppletDefinition)
    (workflow : Workflow) (realTimeData : RealTimeData)
    (node : WorkflowNode) (c : Condition) (fuel : nat) (run : Run) (w : World) :
  condition node = Some c ->
  In (condition_type c) ["dsi_below"; "dsi_above"; "price_below"; "price_above"] ->
  reserveRatio realTimeData = None \/ djedPrice realTimeData = None ->
  evaluateCondition c realTimeData = false /\
  (id node ∉ executedNodes run ->
   exists record w',
     executeNode APPLET_DEFINITIONS workflow realTimeData (S fuel) node run w
     = Some ({| executions := executions run ++ [record];
                executedNodes := executedNodes run ∪ {[ id node ]} |}, w') /\
     nodeId record = id node /\
     status record = skipped /\
     output record = None).
Proof.
  intros Hc Htype Hmissing.
  pose proof (evaluateCondition_missing c realTimeData Hmissing) as Heval.
  split; [exact Heval |]. intros Hfresh.
  assert (shouldExecute node realTimeData = false) as Hskip.
  { unfold shouldExecute. rewrite Hc, Heval.
    cbn in Htype. now destruct Htype as [<- | [<- | [<- | [<- | []]]]]. }
  rewrite executeNode_fresh by exact Hfresh.
  destruct (performNode_record APPLET_DEFINITIONS realTimeData node w)
    as (e & w1 & -> & Hid & _ & Hstatus & Hout & _).
  rewrite Hskip in *. exists e, w1. auto.
Qed.

Lemma missing_metrics_skip_witness :
  condition (mkNode "n1" "djed_monitor"
               (Some (mkCondition "dsi_below" (Some 400%Q))))
  = Some (mkCondition "dsi_below" (Some 400%Q)) /\
  In (condition_type (mkCondition "dsi_below" (Some 400%Q)))
     ["dsi_below"; "dsi_above"; "price_below"; "price_above"] /\
  (reserveRatio (mkData None None (Some 1%Q) None) = None \/
   djedPrice (mkData None None (Some 1%Q) None) = None) /\
  evaluateCondition (mkCondition "dsi_below" (Some 400%Q))
                    (mkData None None (Some 1%Q) None) = false /\
  ("n1" ∉ executedNodes emptyRun ->
   exists record w',
     executeNode sampleDefinitions
       (mkWorkflow "wf" "one"
          [mkNode "n1" "djed_monitor"
             (Some (mkCondition "dsi_below" (Some 400%Q)))] [])
       (mkData None None (Some 1%Q) None) 1
       (mkNode "n1" "djed_monitor"
          (Some (mkCondition "dsi_below" (Some 400%Q))))
       emptyRun (worldAt 0)
     = Some ({| executions := executions emptyRun ++ [record];
                executedNodes := executedNodes emptyRun ∪ {[ "n1" ]} |}, w') /\
     nodeId record = "n1" /\
     status record = skipped /\
     output record = None).
Proof.
  assert (In "dsi_below"
             ["dsi_below"; "dsi_above"; "price_below"; "price_above"]) as Htype
    by (left; reflexivity).
  split; [reflexivity |]. split; [exact Htype |].
  split; [left; reflexivity |].
  exact (missing_metrics_skip sampleDefinitions
           (mkWorkflow "wf" "one"
              [mkNode "n1" "djed_monitor"
                 (Some (mkCondition "dsi_below" (Some 400%Q)))] [])
           (mkData None None (Some 1%Q) None)
           (mkNode "n1" "djed_monitor"
              (Some (mkCondition "dsi_below" (Some 400%Q))))
           (mkCondition "dsi_below" (Some 400%Q)) 0 emptyRun (worldAt 0)
           eq_refl Htype (or_introl eq_refl)).
Defined.

(** The same node entered from the empty run, evaluated. *)
Example missing_metrics_skip_run :
  option_map
    (fun '(run, w') =>
       (map (fun e => (nodeId e, status e, output e)) (executions run),
        elements (executedNodes run)))
    (executeNode sampleDefinitions
       (mkWorkflow "wf" "one"
          [mkNode "n1" "djed_monitor"
             (Some (mkCondition "dsi_below" (Some 400%Q)))] [])
       (mkData None None (Some 1%Q) None) 1
       (mkNode "n1" "djed_monitor"
          (Some (mkCondition "dsi_below" (Some 400%Q))))
       emptyRun (worldAt 0))
  = Some ([("n1", skipped, None)], ["n1"]).
Proof. vm_compute. reflexivity. Qed.

(** One step of the traversal into a node that has not been visited and
    whose condition holds. *)
Lemma executeNode_enter APPLET_DEFINITIONS workflow realTimeData fuel node run w :
  id node ∉ executedNodes run ->
  shouldExecute node realTimeData = true ->
  exists e w1,
    nodeId e = id node /\ status e = success /\
    executeNode APPLET_DEFINITIONS workflow realTimeData (S fuel) node run w
    = forEach (executeNode APPLET_DEFINITIONS workflow realTimeData fuel)
              (connectedNodes workflow node) (pushed run e (id node)) w1.
Proof.
  intros Hfresh Hgo. rewrite executeNode_fresh by exact Hfresh.
  destruct (performNode_record APPLET_DEFINITIONS realTimeData node w)
    as (e & w1 & -> & Hid & _ & Hstatus & _).
  rewrite Hgo in *. now exists e, w1.
Qed.

Ltac enter_node :=
  match goal with
  | |- context [Engine.executeNode ?defs ?wf ?data (S ?fuel) ?node ?run ?w] =>
      let e := fresh "e" in
      let w1 := fresh "w" in
      let Hid := fresh "Hid" in
      let Hst := fresh "Hst" in
      let Hstep := fresh "Hstep" in
      destruct (executeNode_enter defs wf data fuel node run w)
        as (e & w1 & Hid & Hst & Hstep);
      [ cbn; set_solver | auto | rewrite Hstep; clear Hstep; cbn [id] in Hid ]
  end.

Ltac skip_visited :=
  rewrite executeNode_visited by (cbn; set_solver).

(** C7.  In every run each node id produces at most one execution record;
    and on the diamond A->B, A->C, B->D, C->D with every node's condition
    holding, the records are those of A, B, D and C in this order, all
    successful: D is executed once although two paths lead to it. *)
Theorem each_node_recorded_once :
  (forall APPLET_DEFINITIONS workflow protocolStatus w,
     exists log w',
       executeWorkflow APPLET_DEFINITIONS workflow protocolStatus w
       = Some (log, w') /\
       NoDup (map nodeId (nodeExecutions log))) /\
  (forall APPLET_DEFINITIONS tA tB tC tD cA cB cC cD protocolStatus w,
     let workflow := diamond tA tB tC tD cA cB cC cD in
     let realTimeData := fst (fetchRealTimeData (snd (Date_now w))) in
     protocolStatus <> Some CRITICAL ->
     (forall n, In n (nodes workflow) -> shouldExecute n realTimeData = true) ->
     exists log w',
       executeWorkflow APPLET_DEFINITIONS workflow protocolStatus w
       = Some (log, w') /\
       map nodeId (nodeExecutions log) = ["A"; "B"; "D"; "C"] /\
       Forall (fun e => status e = success) (nodeExecutions log) /\
       length (List.filter (fun e => String.eqb (nodeId e) "D")
                           (nodeExecutions log)) = 1%nat).
Proof.
  split.
  - intros defs workflow protocolStatus w.
    destruct (is_critical protocolStatus) eqn:Hgate.
    + destruct protocolStatus as [[] |]; try discriminate.
      rewrite executeWorkflow_gate. eexists _, _. split; [reflexivity |].
      apply NoDup_singleton.
    + destruct (executeWorkflow_traverses defs workflow protocolStatus w Hgate)
        as (run & log & w' & Hrun & Hrec & [Hnodup _] & _).
      exists log, w'. split; [exact Hrun |]. now rewrite Hrec.
  - intros defs tA tB tC tD cA cB cC cD protocolStatus w workflow realTimeData
           Hps Hconds.
    assert (is_critical protocolStatus = false) as Hgate.
    { destruct protocolStatus as [[] |]; try reflexivity. congruence. }
    assert (shouldExecute (mkNode "A" tA cA) realTimeData = true) as HA
      by (apply Hconds; cbn; auto).
    assert (shouldExecute (mkNode "B" tB cB) realTimeData = true) as HB
      by (apply Hconds; cbn; auto).
    assert (shouldExecute (mkNode "C" tC cC) realTimeData = true) as HC
      by (apply Hconds; cbn; auto).
    assert (shouldExecute (mkNode "D" tD cD) realTimeData = true) as HD
      by (apply Hconds; cbn; auto).
    unfold executeWorkflow. rewrite Hgate.
    subst realTimeData. destruct (Date_now w) as [startTime w0]. cbn [snd] in *.
    destruct (fetchRealTimeData w0) as [realTimeData w1]. cbn [fst] in *.
    change (entryNodes workflow) with [mkNode "A" tA cA].
    change (S (length (nodes workflow))) with 5%nat.
    cbn [forEach]. enter_node.
    change (connectedNodes workflow (mkNode "A" tA cA))
      with [mkNode "B" tB cB; mkNode "C" tC cC].
    cbn [forEach]. enter_node.
    change (connectedNodes workflow (mkNode "B" tB cB)) with [mkNode "D" tD cD].
    cbn [forEach]. enter_node.
    change (connectedNodes workflow (mkNode "D" tD cD)) with (@nil WorkflowNode).
    cbn [forEach]. enter_node.
    change (connectedNodes workflow (mkNode "C" tC cC)) with [mkNode "D" tD cD].
    cbn [forEach]. skip_visited.
    destruct (Date_now _) as [t_total w6]. destruct (Date_now w6) as [t_id w7].
    eexists _, _. split; [reflexivity |].
    cbn [nodeExecutions executions pushed emptyRun app map List.filter].
    rewrite Hid, Hid0, Hid1, Hid2. cbn [String.eqb Ascii.eqb Bool.eqb length].
    repeat split. repeat constructor; assumption.
Qed.

Lemma each_node_recorded_once_witness :
  Some OPTIMAL <> Some CRITICAL /\
  (forall n,
     In n (nodes (diamond "djed_monitor" "djed_sim" "djed_sentinel"
                          "djed_ledger"
                          (Some (mkCondition "always" None)) None None None)) ->
     shouldExecute n (fst (fetchRealTimeData (snd (Date_now (worldAt 0)))))
     = true) /\
  exists log w',
    executeWorkflow sampleDefinitions
      (diamond "djed_monitor" "djed_sim" "djed_sentinel" "djed_ledger"
               (Some (mkCondition "always" None)) None None None)
      (Some OPTIMAL) (worldAt 0)
    = Some (log, w') /\
    map nodeId (nodeExecutions log) = ["A"; "B"; "D"; "C"] /\
    Forall (fun e => status e = success) (nodeExecutions log) /\
    length (List.filter (fun e => String.eqb (nodeId e) "D")
                        (nodeExecutions log)) = 1%nat.
Proof.
  assert (Some OPTIMAL <> Some CRITICAL) as Hps by discriminate.
  assert (forall n,
            In n (nodes (diamond "djed_monitor" "djed_sim" "djed_sentinel"
                                 "djed_ledger"
                                 (Some (mkCondition "always" None))
                                 None None None)) ->
            shouldExecute n
              (fst (fetchRealTimeData (snd (Date_now (worldAt 0))))) = true)
    as Hconds.
  { intros n [<- | [<- | [<- | [<- | []]]]]; reflexivity. }
  split; [exact Hps |]. split; [exact Hconds |].
  exact (proj2 each_node_recorded_once sampleDefinitions
               "djed_monitor" "djed_sim" "djed_sentinel" "djed_ledger"
               (Some (mkCondition "always" None)) None None None
               (Some OPTIMAL) (worldAt 0) Hps Hconds).
Defined.

Lemma executeWorkflow_completes_witness :
  Some OPTIMAL <> Some CRITICAL /\
  exists log w',
    executeWorkflow sampleDefinitions
      (diamond "djed_monitor" "djed_sim" "djed_sentinel" "djed_ledger"
               (Some (mkCondition "dsi_below" None)) None None None)
      (Some OPTIMAL) (worldAt 0)
    = Some (log, w') /\
    Forall (fun e => status e = success \/ status e = skipped)
           (nodeExecutions log) /\
    log_status log = completed.
Proof.
  assert (Some OPTIMAL <> Some CRITICAL) as Hps by discriminate.
  split; [exact Hps |].
  exact (proj1 (executeWorkflow_completes sampleDefinitions
                  (diamond "djed_monitor" "djed_sim" "djed_sentinel"
                           "djed_ledger"
                           (Some (mkCondition "dsi_below" None)) None None None)
                  (Some OPTIMAL) (worldAt 0)) Hps).
Defined.

(** Two runs of the diamond with the network down, evaluated: without
    conditions all four nodes succeed; with a [dsi_below] condition on A the
    run stops at A, skipped, and still completes. *)
Example diamond_runs :
  option_map
    (fun '(log, _) =>
       (map (fun e => (nodeId e, status e)) (nodeExecutions log),
        log_status log))
    (executeWorkflow sampleDefinitions
       (diamond "djed_monitor" "djed_sim" "djed_sentinel" "djed_ledger"
                None None None None)
       None (worldAt 0))
  = Some ([("A", success); ("B", success); ("D", success); ("C", success)],
          completed) /\
  option_map
    (fun '(log, _) =>
       (map (fun e => (nodeId e, status e)) (nodeExecutions log),
        log_status log))
    (executeWorkflow sampleDefinitions
       (diamond "djed_monitor" "djed_sim" "djed_sentinel" "djed_ledger"
                (Some (mkCondition "dsi_below" None)) None None None)
       (Some OPTIMAL) (worldAt 0))
  = Some ([("A", skipped)], completed).
Proof. split; vm_compute; reflexivity. Qed.

End EngineFacts.

(** ** Client-side retry *)

Module RetryFacts.

Import Retry.

Lemma newEvents_app (w w' : World) (evs : list Event) :
  events w' = events w ++ evs -> newEvents w w' = evs.
Proof. unfold newEvents. intros ->. apply drop_app_length. Qed.

(** C9, as amended.  For every URL, [fetchWithRetry] with its default
    arguments makes at least one and at most 3 fetch attempts, waiting 1 s
    after the first failed attempt and 2 s after the second; no wait
    follows the third, so a 4 s wait never occurs.  It resolves only with
    the body of the first attempt that succeeds.  When the third attempt
    fails too, it rejects with the error of that last attempt: whenever all
    three attempts fail, the call is rejected, never resolved. *)
Theorem fetchWithRetry_policy (url : string) (w : World) :
  retryPolicy waits_between url w /\
  (allRejected url w 3 ->
   exists e,
     fst (fetchWithRetry_default url w) = Rejected e /\
     attemptResult (network w (requests w + 2)%nat url) = Rejected e /\
     newEvents w (snd (fetchWithRetry_default url w))
     = [EvFetch url; EvTimeout 1000; EvFetch url; EvTimeout 2000;
        EvFetch url]).
Proof.
  unfold retryPolicy, fetchWithRetry_default, fetchWithRetry,
    default_maxRetries, default_initialDelay.
  cbn [attempts]. unfold bind, fetch. cbn [requests network events].
  assert (requests w + 0 = requests w)%nat as H0 by lia.
  assert (requests w + 1 = S (requests w))%nat as H1 by lia.
  assert (requests w + 2 = S (S (requests w)))%nat as H2 by lia.
  destruct (attemptResult (network w (requests w) url)) as [v1 | e1] eqn:E1.
  { split.
    - exists 1%nat. split; [lia |]. split; [now apply newEvents_app |].
      split; [intros k Hk; lia |].
      cbn [Nat.sub]. now rewrite H0.
    - intros Hall. destruct (Hall 0%nat ltac:(lia)) as [e He].
      rewrite H0 in He. congruence. }
  cbn [Nat.ltb Nat.leb Nat.sub]. unfold sleep, ret.
  cbn [requests network events].
  destruct (attemptResult (network w (S (requests w)) url)) as [v2 | e2] eqn:E2.
  { split.
    - exists 2%nat. split; [lia |].
      split; [apply newEvents_app; cbn [events]; now rewrite <- !app_assoc |].
      split.
      + intros k Hk. assert (k = 0%nat) as -> by lia.
        exists e1. now rewrite H0.
      + cbn [Nat.sub]. now rewrite H1.
    - intros Hall. destruct (Hall 1%nat ltac:(lia)) as [e He].
      rewrite H1 in He. congruence. }
  cbn [requests network events].
  destruct (attemptResult (network w (S (S (requests w))) url))
    as [v3 | e3] eqn:E3.
  { split.
    - exists 3%nat. split; [lia |].
      split; [apply newEvents_app; cbn [events]; now rewrite <- !app_assoc |].
      split.
      + intros k Hk.
        assert (k = 0 \/ k = 1)%nat as [-> | ->] by lia;
          [exists e1; now rewrite H0 | exists e2; now rewrite H1].
      + cbn [Nat.sub]. now rewrite H2.
    - intros Hall. destruct (Hall 2%nat ltac:(lia)) as [e He].
      rewrite H2 in He. congruence. }
  split.
  - exists 3%nat. split; [lia |].
    erewrite newEvents_app by (cbn [events]; now rewrite <- !app_assoc).
    split; [reflexivity |]. split.
    + intros k Hk.
      assert (k = 0 \/ k = 1)%nat as [-> | ->] by lia;
        [exists e1; now rewrite H0 | exists e2; now rewrite H1].
    + rewrite H2. repeat split. exact E3.
  - intros _. exists e3. cbn [fst snd]. rewrite H2.
    split; [reflexivity |]. split; [exact E3 |].
    erewrite newEvents_app by (cbn [events]; now rewrite <- !app_assoc).
    reflexivity.
Qed.

(** C9, as stated, fails when the network is down: three attempts are
    made and the call rejects, but the waits served are 1 s and 2 s only. *)
Lemma retry_spec_fails_offline :
  ~ retryPolicy waits_spec "/api/djed?endpoint=info" (worldAt 0).
Proof.
  unfold retryPolicy.
  destruct (fetchWithRetry_default _ _) as [result w'] eqn:E.
  vm_compute in E. injection E as <- <-.
  intros (n & _ & _ & _ & _ & Hwaits & _).
  vm_compute in Hwaits. discriminate Hwaits.
Qed.

(** The run of the counterexample, spelled out. *)
Example fetchWithRetry_offline :
  let (result, w') :=
    fetchWithRetry_default "/api/djed?endpoint=info" (worldAt 0) in
  result = Rejected "offline" /\
  events w' = [EvFetch "/api/djed?endpoint=info"; EvTimeout 1000%Q;
               EvFetch "/api/djed?endpoint=info"; EvTimeout 2000%Q;
               EvFetch "/api/djed?endpoint=info"].
Proof. vm_compute. split; reflexivity. Qed.

(** The 4 s wait of the source comment belongs to a fourth attempt, which
    the default [maxRetries] never makes. *)
Example fetchWithRetry_four_attempts :
  delaysOf (events (snd (fetchWithRetry "/api/djed?endpoint=info" 4 1000
                                        (worldAt 0))))
  = [inject_Z 1000; inject_Z 2000; inject_Z 4000] /\
  length (fetchesOf (events (snd (fetchWithRetry "/api/djed?endpoint=info"
                                                 4 1000 (worldAt 0)))))
  = 4%nat.
Proof. split; vm_compute; reflexivity. Qed.

End RetryFacts.

(** ** DEX price hook *)

Module DexPriceFacts.

Import Arbitrage DexPrice.

Lemma signal_of_spreadPercent isDemoMode dexData djedData dexError djedError :
  let r := reading (useDexPrice isDemoMode dexData djedData dexError djedError) in
  r_signal r
  = if Js.ge (r_spreadPercent r) (1 # 2) then MINT_DJED
    else if Js.le (r_spreadPercent r) (- (1 # 2)) then REDEEM_DJED
    else NO_CLEAR_EDGE.
Proof.
  unfold useDexPrice.
  destruct isDemoMode; [reflexivity |].
  destruct dexData as [d |]; [destruct (success d) |]; reflexivity.
Qed.

Lemma hook_signal_bands isDemoMode dexData djedData dexError djedError :
  let r := reading (useDexPrice isDemoMode dexData djedData dexError djedError) in
  (r_signal r = MINT_DJED <-> (1 # 2 <= r_spreadPercent r)%Q) /\
  (r_signal r = REDEEM_DJED <-> (r_spreadPercent r <= - (1 # 2))%Q).
Proof.
  intros r. pose proof (signal_of_spreadPercent isDemoMode dexData djedData
                          dexError djedError) as Hsig.
  fold r in Hsig. rewrite Hsig.
  destruct (Js.ge (r_spreadPercent r) (1 # 2)) eqn:Hge;
    [| destruct (Js.le (r_spreadPercent r) (- (1 # 2))) eqn:Hle].
  - apply JsFacts.ge_iff in Hge. split; split; intros; try discriminate; try lra.
    reflexivity.
  - apply JsFacts.ge_false_iff in Hge. apply Qle_bool_iff in Hle.
    split; split; intros; try discriminate; try lra. reflexivity.
  - apply JsFacts.ge_false_iff in Hge.
    assert (- (1 # 2) < r_spreadPercent r)%Q as Hlo.
    { apply Qnot_le_lt. intros H. apply Qle_bool_iff in H.
      unfold Js.le in Hle. congruence. }
    split; split; intros; try discriminate; try lra.
Qed.

(** X1.  Whatever the two fetches hold, the signal the hook reports is
    MINT exactly when spreadPercent >= 0.5, REDEEM exactly when
    spreadPercent <= -0.5 and NO CLEAR EDGE strictly in between; and the
    page's guard (a signal and |spreadPercent| >= 0.5) holds exactly when
    the signal is MINT or REDEEM, so its second test never rejects a
    reading of the hook. *)
Theorem hook_signal_matches_page_guard isDemoMode dexData djedData
    dexError djedError :
  let r := reading (useDexPrice isDemoMode dexData djedData dexError djedError) in
  (r_signal r = MINT_DJED <-> (1 # 2 <= r_spreadPercent r)%Q) /\
  (r_signal r = REDEEM_DJED <-> (r_spreadPercent r <= - (1 # 2))%Q) /\
  (r_signal r = NO_CLEAR_EDGE <->
   (- (1 # 2) < r_spreadPercent r)%Q /\ (r_spreadPercent r < 1 # 2)%Q) /\
  (hasSignal r = true <-> r_signal r <> NO_CLEAR_EDGE).
Proof.
  intros r. pose proof (signal_of_spreadPercent isDemoMode dexData djedData
                          dexError djedError) as Hsig.
  fold r in Hsig. unfold hasSignal, Js.Math_abs. rewrite Hsig.
  destruct (Js.ge (r_spreadPercent r) (1 # 2)) eqn:Hge;
    [| destruct (Js.le (r_spreadPercent r) (- (1 # 2))) eqn:Hle].
  - apply JsFacts.ge_iff in Hge.
    assert (Js.ge (Qabs (r_spreadPercent r)) (1 # 2) = true) as ->.
    { apply JsFacts.ge_iff. eapply Qle_trans; [exact Hge | apply Qle_Qabs]. }
    cbn. repeat split; intros; try discriminate; try lra.
  - apply JsFacts.ge_false_iff in Hge. apply Qle_bool_iff in Hle.
    assert (Js.ge (Qabs (r_spreadPercent r)) (1 # 2) = true) as ->.
    { apply JsFacts.ge_iff.
      rewrite <- Qabs_opp. eapply Qle_trans; [| apply Qle_Qabs]. lra. }
    cbn. repeat split; intros; try discriminate; try lra.
  - apply JsFacts.ge_false_iff in Hge.
    assert (- (1 # 2) < r_spreadPercent r)%Q as Hlo.
    { apply Qnot_le_lt. intros H. apply Qle_bool_iff in H.
      unfold Js.le in Hle. congruence. }
    cbn. repeat split; intros; try discriminate; try lra; try congruence.
Qed.

Lemma or_default_self (d : Q) : (Js.or_default (Some d) 0 == d)%Q.
Proof.
  unfold Js.or_default, Js.falsy. destruct (Qeq_bool d 0) eqn:E; [| reflexivity].
  apply Qeq_bool_iff in E. now rewrite E.
Qed.

Lemma spread_of_prices isDemoMode dexData djedData dexError djedError :
  let r := reading (useDexPrice isDemoMode dexData djedData dexError djedError) in
  (r_spread r == r_dexPrice r - r_protocolPrice r)%Q /\
  r_spreadPercent r
  = if Js.gt (r_protocolPrice r) 0
    then (r_spread r / r_protocolPrice r * 100)%Q else 0%Q.
Proof.
  unfold useDexPrice.
  destruct isDemoMode; [split; reflexivity |].
  destruct dexData as [d |]; [destruct (success d) |];
    (split; [| reflexivity]);
    (apply Qplus_comp; [apply or_default_self | reflexivity]).
Qed.

(** Scaling an inequality by a positive protocol price. *)
Lemma percent_ge (s p c : Q) :
  (0 < p)%Q -> (c <= s / p * 100)%Q <-> (c * p <= s * 100)%Q.
Proof.
  intros Hp. assert (s / p * 100 == s * 100 / p)%Q as -> by (field; lra).
  split; intros H.
  - apply (Qmult_le_r _ _ p) in H; [| exact Hp].
    assert (s * 100 / p * p == s * 100)%Q as E by (field; lra).
    now rewrite E in H.
  - apply Qle_shift_div_l; assumption.
Qed.

Lemma percent_le (s p c : Q) :
  (0 < p)%Q -> (s / p * 100 <= c)%Q <-> (s * 100 <= c * p)%Q.
Proof.
  intros Hp. assert (s / p * 100 == s * 100 / p)%Q as -> by (field; lra).
  split; intros H.
  - apply (Qmult_le_r _ _ p) in H; [| exact Hp].
    assert (s * 100 / p * p == s * 100)%Q as E by (field; lra).
    now rewrite E in H.
  - apply Qle_shift_div_r; assumption.
Qed.

(** X2.  When the protocol price is positive, the signal is MINT exactly
    when the DEX price is at least 0.5% above the protocol price, and REDEEM
    exactly when it is at least 0.5% below. *)
Theorem signal_means_price_gap isDemoMode dexData djedData dexError djedError :
  let r := reading (useDexPrice isDemoMode dexData djedData dexError djedError) in
  (0 < r_protocolPrice r)%Q ->
  (r_signal r = MINT_DJED <->
   ((1005 # 1000) * r_protocolPrice r <= r_dexPrice r)%Q) /\
  (r_signal r = REDEEM_DJED <->
   (r_dexPrice r <= (995 # 1000) * r_protocolPrice r)%Q).
Proof.
  intros r Hp.
  destruct (hook_signal_bands isDemoMode dexData djedData dexError djedError)
    as (Hmint & Hredeem).
  destruct (spread_of_prices isDemoMode dexData djedData dexError djedError)
    as (Hspread & Hpct).
  fold r in Hmint, Hredeem, Hspread, Hpct.
  assert (Js.gt (r_protocolPrice r) 0 = true) as Hgt by now apply JsFacts.gt_iff.
  rewrite Hgt in Hpct. rewrite Hmint, Hredeem, Hpct.
  rewrite (percent_ge _ _ _ Hp), (percent_le _ _ _ Hp), Hspread.
  split; split; intros; lra.
Qed.

Lemma signal_means_price_gap_witness :
  (0 < r_protocolPrice
         (reading (useDexPrice false
                     (Some (mkDexPrice true (102 # 100) "DJED/ERG" 50000 "spectrum"))
                     (Some (mkDjedPrice 1 (98 # 100) 1 0 "djed-protocol"))
                     false false)))%Q /\
  (r_signal
     (reading (useDexPrice false
                 (Some (mkDexPrice true (102 # 100) "DJED/ERG" 50000 "spectrum"))
                 (Some (mkDjedPrice 1 (98 # 100) 1 0 "djed-protocol"))
                 false false)) = MINT_DJED <->
   ((1005 # 1000) * 1 <= 102 # 100)%Q).
Proof.
  assert (0 < 1)%Q as Hp by reflexivity.
  split; [exact Hp |].
  exact (proj1 (signal_means_price_gap false
                  (Some (mkDexPrice true (102 # 100) "DJED/ERG" 50000 "spectrum"))
                  (Some (mkDjedPrice 1 (98 # 100) 1 0 "djed-protocol"))
                  false false Hp)).
Defined.

Lemma map_field_sameEntries {A} (f : ArbitrageOpportunity -> A)
    (h1 h2 : list ArbitrageOpportunity) :
  (forall s opp, f (withStatus s opp) = f opp) ->
  sameEntries h1 h2 -> map f h1 = map f h2.
Proof.
  intros Hf E. unfold sameEntries in E.
  assert (forall h, map f h = map f (map (withStatus detected) h)) as Hmap.
  { intros h. rewrite map_map. apply map_ext. intros opp. now rewrite Hf. }
  now rewrite (Hmap h1), (Hmap h2), E.
Qed.

(** The first tick of a page on a reading with a signal. *)
Lemma first_tick env r w :
  hasSignal r = true ->
  sameEntries (fst (historyEffect env r [] w)) [fst (newOpportunity env r w)].
Proof.
  intros Hsig. unfold historyEffect. rewrite Hsig, run_bind.
  unfold recordOpportunity. rewrite run_bind. cbn [isSignificantChange ret fst snd].
  apply ArbitrageFacts.mapM_expire_sameEntries.
Qed.

(** X3.  Outside demo mode, when no DEX price is available (nothing
    fetched yet, or a response with success false) and the protocol price
    is positive (1 by default), the hook reports a DEX price of 0, a spread
    of -100% and the signal REDEEM; the page takes it for an opportunity:
    its first tick stores one entry with DEX price 0 and signal REDEEM. *)
Theorem missing_dex_price_reads_as_redeem env dexData djedData
    dexError djedError w :
  match dexData with Some d => success d = false | None => True end ->
  match djedData with Some j => (0 < mintPrice j)%Q | None => True end ->
  let r := reading (useDexPrice false dexData djedData dexError djedError) in
  r_dexPrice r = 0%Q /\
  (r_spreadPercent r == - (100))%Q /\
  r_signal r = REDEEM_DJED /\
  hasSignal r = true /\
  map (fun opp => (dexPrice opp, signal opp))
      (fst (pageTick env false dexData djedData dexError djedError
                     initialHistory w))
  = [(0%Q, REDEEM_DJED)].
Proof.
  intros Hdex Hdjed r.
  assert (r_dexPrice r = 0%Q) as Hd.
  { subst r. unfold useDexPrice. destruct dexData as [d |]; [| reflexivity].
    now rewrite Hdex. }
  assert (0 < r_protocolPrice r)%Q as Hp.
  { subst r. unfold useDexPrice.
    destruct dexData as [d |]; [destruct (success d) |];
      (destruct djedData as [j |]; [exact Hdjed | reflexivity]). }
  destruct (spread_of_prices false dexData djedData dexError djedError)
    as (Hspread & Hpct).
  destruct (hook_signal_bands false dexData djedData dexError djedError)
    as (_ & Hredeem).
  fold r in Hspread, Hpct, Hredeem.
  assert (Js.gt (r_protocolPrice r) 0 = true) as Hgt by now apply JsFacts.gt_iff.
  rewrite Hgt, Hd in *.
  assert (r_spreadPercent r == - (100))%Q as Hsp.
  { rewrite Hpct, Hspread. field. lra. }
  assert (r_signal r = REDEEM_DJED) as Hsig by (apply Hredeem; lra).
  assert (hasSignal r = true) as Hhas.
  { unfold hasSignal, Js.Math_abs. rewrite Hsig. cbn [is_no_clear_edge negb andb].
    apply JsFacts.ge_iff. rewrite Hsp. now apply Qle_bool_iff. }
  repeat split; try assumption.
  unfold pageTick, initialHistory. fold r.
  rewrite (map_field_sameEntries
             (fun opp => (dexPrice opp, signal opp)) _ _
             (fun _ _ => eq_refl) (first_tick env r w Hhas)).
  cbn [map]. unfold newOpportunity, bind, ret, Date_now.
  cbn [fst dexPrice signal]. now rewrite Hd, Hsig.
Qed.

Lemma missing_dex_price_reads_as_redeem_witness :
  match @None DexPriceResponse with
  | Some d => success d = false | None => True end /\
  match @None DjedPriceResponse with
  | Some j => (0 < mintPrice j)%Q | None => True end /\
  r_signal (reading (useDexPrice false None None false false)) = REDEEM_DJED /\
  map (fun opp => (dexPrice opp, signal opp))
      (fst (pageTick defaultProfitEnv false None None false false
                     initialHistory (worldAt 0)))
  = [(0%Q, REDEEM_DJED)].
Proof.
  split; [exact I |]. split; [exact I |].
  pose proof (missing_dex_price_reads_as_redeem defaultProfitEnv None None
                false false (worldAt 0) I I) as H.
  split; [exact (proj1 (proj2 (proj2 H))) | exact (proj2 (proj2 (proj2 (proj2 H))))].
Defined.

(** X4.  Outside demo mode, a protocol mint price that is zero or negative
    is never divided by: the hook reports spreadPercent 0 and NO CLEAR EDGE,
    and the page's tick creates nothing and expires every stored entry. *)
Theorem nonpositive_protocol_price_is_no_edge env dexData j
    dexError djedError prev w :
  (mintPrice j <= 0)%Q ->
  let r := reading (useDexPrice false dexData (Some j) dexError djedError) in
  r_spreadPercent r = 0%Q /\
  r_signal r = NO_CLEAR_EDGE /\
  pageTick env false dexData (Some j) dexError djedError prev w
  = (expireAll prev, w).
Proof.
  intros Hp r.
  assert (Js.gt (mintPrice j) 0 = false) as Hgt by now apply JsFacts.gt_false_iff.
  assert (r_spreadPercent r = 0%Q /\ r_signal r = NO_CLEAR_EDGE) as [Hsp Hsig].
  { subst r. unfold useDexPrice.
    destruct dexData as [d |]; [destruct (success d) |];
      cbn [negb reading r_spreadPercent r_signal]; rewrite Hgt; split; reflexivity. }
  repeat split; try assumption.
  unfold pageTick, historyEffect, hasSignal. fold r. now rewrite Hsig.
Qed.

Lemma nonpositive_protocol_price_is_no_edge_witness :
  (mintPrice (mkDjedPrice 0 0 1 0 "djed-protocol") <= 0)%Q /\
  r_signal
    (reading (useDexPrice false
                (Some (mkDexPrice true (102 # 100) "DJED/ERG" 50000 "spectrum"))
                (Some (mkDjedPrice 0 0 1 0 "djed-protocol")) false false))
  = NO_CLEAR_EDGE.
Proof.
  assert (0 <= 0)%Q as Hp by apply Qle_refl.
  split; [exact Hp |].
  exact (proj1 (proj2 (nonpositive_protocol_price_is_no_edge defaultProfitEnv
                         (Some (mkDexPrice true (102 # 100) "DJED/ERG" 50000
                                           "spectrum"))
                         (mkDjedPrice 0 0 1 0 "djed-protocol")
                         false false [] (worldAt 0) Hp))).
Defined.

End DexPriceFacts.

(** ** Arbitrage page: what every history satisfies *)

Module HistoryFacts.

Import Arbitrage.

Lemma genuine_status s opp : genuine (withStatus s opp) <-> genuine opp.
Proof. reflexivity. Qed.











(** X6.  The page's counters always add up: every entry is counted as
    detected or as expired, never both and never neither; and each of the
    two status filters shows exactly as many entries as its counter says. *)
Theorem stats_add_up (history : list ArbitrageOpportunity) :
  (detected_count (stats history) + expired_count (stats history)
   = total (stats history))%nat /\
  length (filteredOpportunities (Some detected) history)
  = detected_count (stats history) /\
  length (filteredOpportunities (Some expired) history)
  = expired_count (stats history) /\
  length (filteredOpportunities None history) = total (stats history).
Proof.
  split; [| repeat split].
  unfold stats, withStatusOf. cbn [detected_count expired_count total].
  induction history as [| o h IH]; [reflexivity |].
  cbn [List.filter length]. destruct (status o); cbn [length]; lia.
Qed.

Lemma expireAll_twice (prev : list ArbitrageOpportunity) :
  expireAll (expireAll prev) = expireAll prev.
Proof.
  unfold expireAll. rewrite map_map. apply map_ext. intros o.
  now destruct o as [? ? ? ? ? ? ? ? ? [] ?].
Qed.

Lemma withStatusOf_detected_expireAll (prev : list ArbitrageOpportunity) :
  withStatusOf detected (expireAll prev) = [].
Proof.
  unfold withStatusOf, expireAll.
  induction prev as [| o h IH]; [reflexivity |].
  cbn [map List.filter]. cbn [status withStatus].
  now destruct (status o).
Qed.

(** X7.  A tick without a signal creates nothing and reads no clock: it
    keeps every entry and its data, marks all of them expired, and leaves
    the page with no detected entry and a total profit of 0; a second such
    tick changes nothing. *)
Theorem no_signal_tick_expires_all (env : ProfitEnv) (r : DexReading)
    (prev : list ArbitrageOpportunity) (w : World) :
  hasSignal r = false ->
  let history := fst (historyEffect env r prev w) in
  snd (historyEffect env r prev w) = w /\
  length history = length prev /\
  sameEntries history prev /\
  Forall (fun opp => status opp = expired) history /\
  detected_count (stats history) = 0%nat /\
  totalProfit (stats history) = 0%Q /\
  fst (historyEffect env r history w) = history.
Proof.
  intros Hsig. unfold historyEffect. rewrite Hsig. cbn [ret fst snd].
  split; [reflexivity |]. split; [apply ArbitrageFacts.expireAll_length |].
  split.
  { unfold sameEntries, expireAll. rewrite map_map. reflexivity. }
  split; [apply ArbitrageFacts.expireAll_status |].
  unfold stats. cbn [detected_count totalProfit].
  rewrite withStatusOf_detected_expireAll.
  repeat split. apply expireAll_twice.
Qed.

Lemma no_signal_tick_expires_all_witness :
  hasSignal (mintReading (2 # 10)) = false /\
  Forall (fun opp => status opp = expired)
         (fst (historyEffect defaultProfitEnv (mintReading (2 # 10))
                             [storedAt 0 1; storedAt 5 2] (worldAt 10))).
Proof.
  assert (hasSignal (mintReading (2 # 10)) = false) as Hsig by reflexivity.
  split; [exact Hsig |].
  exact (proj1 (proj2 (proj2 (proj2
           (no_signal_tick_expires_all defaultProfitEnv (mintReading (2 # 10))
              [storedAt 0 1; storedAt 5 2] (worldAt 10) Hsig))))).
Defined.

Lemma aged_expireIfOld (opp : ArbitrageOpportunity) (w : World) :
  aged opp (fst (expireIfOld opp w)).
Proof.
  unfold aged, expireIfOld, bind, ret, Date_now. cbn [fst].
  split; [reflexivity |]. intros E. cbn [status withStatus]. rewrite E.
  cbn [is_detected]. now rewrite andb_false_r.
Qed.

Lemma aged_mapM (h : list ArbitrageOpportunity) (w : World) :
  Forall2 aged h (fst (mapM expireIfOld h w)).
Proof.
  revert w. induction h as [| opp h IH]; intros w; [constructor |].
  cbn [mapM]. rewrite !run_bind. cbn [ret fst].
  constructor; [apply aged_expireIfOld | apply IH].
Qed.

Lemma aged_refl (h : list ArbitrageOpportunity) : Forall2 aged h h.
Proof. apply Forall2_same_length_lookup_2; [done |].
  intros i x y Hx Hy. assert (x = y) as -> by congruence. now split.
Qed.

Lemma aged_expireAll (h : list ArbitrageOpportunity) :
  Forall2 aged h (expireAll h).
Proof.
  unfold expireAll. induction h as [| o h IH]; [constructor |].
  cbn [map]. constructor; [| exact IH].
  split; [reflexivity |]. intros E. cbn [status withStatus]. now rewrite E.
Qed.

(** X8.  Across any tick, the new history is at most one created entry
    followed by entries retained from the old one (all of them, all but the
    most recent, or the first 19); each retained entry keeps its data, and
    an entry that was expired is still expired: the status only ever moves
    from detected to expired. *)
Theorem expired_is_final (env : ProfitEnv) (r : DexReading)
    (prev : list ArbitrageOpportunity) (w : World) :
  exists created retained old,
    fst (historyEffect env r prev w) = created ++ retained /\
    (length created <= 1)%nat /\
    (old = prev \/ old = skipn 1 prev \/ old = firstn 19 prev) /\
    Forall2 (fun o o' =>
               withStatus detected o' = withStatus detected o /\
               (status o = expired -> status o' = expired))
            old retained.
Proof.
  unfold historyEffect. destruct (hasSignal r).
  - rewrite run_bind. destruct (newOpportunity env r w) as [newOpp w1].
    cbn [fst snd]. unfold recordOpportunity. rewrite run_bind.
    destruct (isSignificantChange prev (r_spreadPercent r) w1) as [[] w2];
      cbn [fst snd].
    + change (firstn 20 (newOpp :: prev)) with (newOpp :: firstn 19 prev).
      cbn [mapM]. rewrite !run_bind. cbn [ret fst].
      eexists [_], _, (firstn 19 prev). split; [reflexivity |].
      split; [cbn; lia |]. split; [auto |]. apply aged_mapM.
    + cbn [ret fst]. exists [newOpp], (skipn 1 prev), (skipn 1 prev).
      split; [reflexivity |]. split; [cbn; lia |]. split; [auto |].
      apply aged_refl.
  - cbn [ret fst]. exists [], (expireAll prev), prev.
    split; [reflexivity |]. split; [cbn; lia |]. split; [auto |].
    apply aged_expireAll.
Qed.

End HistoryFacts.

(** ** Workflow engine: what a traversal records *)

Module TraversalFacts.

Import Engine EngineFacts.

Section Invariants.

Variable APPLET_DEFINITIONS : string -> AppletDefinition.
Variable workflow : Workflow.
Variable realTimeData : RealTimeData.

#[local] Abbreviation performNode :=
  (performNode APPLET_DEFINITIONS realTimeData).
#[local] Abbreviation executeNode :=
  (executeNode APPLET_DEFINITIONS workflow realTimeData).

(** A property of runs that every push of a node's record keeps is kept by
    the whole traversal. *)
Lemma executeNode_preserves (P : Run -> Prop) :
  (forall node run w,
     node ∈ nodes workflow -> id node ∉ executedNodes run -> P run ->
     P (pushed run (snd (fst (performNode node w))) (id node))) ->
  forall fuel node run w run' w',
    node ∈ nodes workflow -> P run ->
    executeNode fuel node run w = Some (run', w') -> P run'.
Proof.
  intros Hpush. induction fuel as [| fuel IH];
    intros node run w run' w' Hin HP Hrun; [discriminate Hrun |].
  destruct (decide (id node ∈ executedNodes run)) as [Hv | Hv].
  { rewrite executeNode_visited in Hrun by exact Hv. now injection Hrun as <- _. }
  rewrite executeNode_fresh in Hrun by exact Hv.
  specialize (Hpush node run w Hin Hv HP).
  destruct (performNode node w) as [[go e] w1]. cbn [fst snd] in Hpush.
  destruct go; [| now injection Hrun as <- _].
  assert (forall n, n ∈ connectedNodes workflow node -> n ∈ nodes workflow)
    as Hns by apply connectedNodes_in.
  revert Hpush Hrun Hns. generalize (pushed run e (id node)) as run1.
  generalize w1 as w2.
  induction (connectedNodes workflow node) as [| n ns IHns];
    intros w2 run1 HP1 Hrun Hns; cbn [forEach] in Hrun.
  - now injection Hrun as <- _.
  - destruct (executeNode fuel n run1 w2) as [[run2 w3] |] eqn:E;
      [| discriminate Hrun].
    apply (IHns w3 run2); [| exact Hrun | intros m Hm; apply Hns; now right].
    apply (IH n run1 w2 run2 w3); [apply Hns; now left | exact HP1 | exact E].
Qed.

Lemma forEach_preserves (P : Run -> Prop) :
  (forall node run w,
     node ∈ nodes workflow -> id node ∉ executedNodes run -> P run ->
     P (pushed run (snd (fst (performNode node w))) (id node))) ->
  forall fuel ns run w run' w',
    (forall n, n ∈ ns -> n ∈ nodes workflow) -> P run ->
    forEach (executeNode fuel) ns run w = Some (run', w') -> P run'.
Proof.
  intros Hpush fuel. induction ns as [| n ns IHns];
    intros run w run' w' Hns HP Hrun; cbn [forEach] in Hrun.
  - now injection Hrun as <- _.
  - destruct (executeNode fuel n run w) as [[run2 w3] |] eqn:E;
      [| discriminate Hrun].
    apply (IHns run2 w3 run' w'); [intros m Hm; apply Hns; now right | | exact Hrun].
    apply (executeNode_preserves P Hpush fuel n run w run2 w3);
      [apply Hns; now left | exact HP | exact E].
Qed.

End Invariants.

(** Past the gate, the log is built from the run that the loop over the
    entry nodes leaves. *)
Lemma executeWorkflow_run APPLET_DEFINITIONS workflow protocolStatus w :
  is_critical protocolStatus = false ->
  exists run w2 log w',
    forEach (executeNode APPLET_DEFINITIONS workflow
               (fst (fetchRealTimeData (snd (Date_now w))))
               (S (length (nodes workflow))))
            (entryNodes workflow) emptyRun
            (snd (fetchRealTimeData (snd (Date_now w))))
    = Some (run, w2) /\
    executeWorkflow APPLET_DEFINITIONS workflow protocolStatus w
    = Some (log, w') /\
    nodeExecutions log = executions run /\
    consistent run /\
    log_status log = completed /\
    events w' = events w2.
Proof.
  intros Hgate. unfold executeWorkflow. rewrite Hgate.
  destruct (Date_now w) as [startTime w0]. cbn [snd].
  destruct (fetchRealTimeData w0) as [realTimeData w1]. cbn [fst snd].
  destruct (forEach_returns workflow
              (executeNode APPLET_DEFINITIONS workflow realTimeData
                           (S (length (nodes workflow))))
              (S (length (nodes workflow)))
              (executeNode_returns APPLET_DEFINITIONS workflow realTimeData _)
              (entryNodes workflow) emptyRun w1)
    as (run & w2 & Hrun & _ & _ & Hcons & Hrec).
  { apply entryNodes_in. }
  { pose proof (unvisited_emptyRun workflow). lia. }
  fold emptyRun. rewrite Hrun. exists run, w2.
  eexists _, _. split; [reflexivity |]. split; [reflexivity |].
  cbn [nodeExecutions log_status].
  rewrite (nodeRecord_not_failed _ (Hrec (Forall_nil_2 _))).
  split; [reflexivity |]. split; [exact (Hcons consistent_emptyRun) |].
  split; reflexivity.
Qed.

Lemma not_critical (protocolStatus : option ProtocolStatus) :
  protocolStatus <> Some CRITICAL -> is_critical protocolStatus = false.
Proof. destruct protocolStatus as [[] |]; try reflexivity. congruence. Qed.

(** X9.  Past the policy gate, every record of the log belongs to a node
    of the workflow: it carries that node's id and the name its type has in
    the applet table, and its status is success if the node's condition
    holds on the snapshot and skipped otherwise.  No id is recorded twice,
    so the log never has more records than the workflow has nodes. *)
Theorem records_are_workflow_nodes
    (APPLET_DEFINITIONS : string -> AppletDefinition) (workflow : Workflow)
    (protocolStatus : option ProtocolStatus) (w : World) :
  protocolStatus <> Some CRITICAL ->
  exists log w',
    executeWorkflow APPLET_DEFINITIONS workflow protocolStatus w
    = Some (log, w') /\
    Forall (fun e =>
              exists node,
                In node (nodes workflow) /\
                nodeId e = id node /\
                nodeName e = name (APPLET_DEFINITIONS (type node)) /\
                status e
                = if shouldExecute node
                       (fst (fetchRealTimeData (snd (Date_now w))))
                  then success else skipped)
           (nodeExecutions log) /\
    (length (nodeExecutions log) <= length (nodes workflow))%nat.
Proof.
  intros Hps%not_critical.
  destruct (executeWorkflow_run APPLET_DEFINITIONS workflow protocolStatus w Hps)
    as (run & w2 & log & w' & Hloop & Hrun & Hrec & [Hnodup _] & _).
  exists log, w'. split; [exact Hrun |]. rewrite Hrec.
  set (data := fst (fetchRealTimeData (snd (Date_now w)))) in *.
  set (Q := fun e =>
              exists node,
                In node (nodes workflow) /\
                nodeId e = id node /\
                nodeName e = name (APPLET_DEFINITIONS (type node)) /\
                status e
                = if shouldExecute node data then success else skipped).
  assert (Forall Q (executions run)) as Hall.
  { eapply (forEach_preserves APPLET_DEFINITIONS workflow data
              (fun r => Forall Q (executions r)));
      [| apply entryNodes_in | | exact Hloop]; [| constructor].
    intros node run0 w0 Hin _ HP.
    destruct (performNode_record APPLET_DEFINITIONS data node w0)
      as (e & w1 & -> & Hid & Hname & Hstatus & _).
    cbn [fst snd pushed executions]. apply Forall_app. split; [exact HP |].
    constructor; [| constructor]. exists node.
    split; [now apply list_elem_of_In | auto]. }
  split; [exact Hall |].
  rewrite <- (length_map nodeId (executions run)),
    <- (length_map id (nodes workflow)).
  apply NoDup_incl_length; [apply NoDup_ListNoDup; exact Hnodup |].
  intros i (e & <- & He)%in_map_iff.
  rewrite Forall_forall in Hall.
  destruct (Hall e) as (node & Hnode & -> & _); [now apply list_elem_of_In |].
  now apply in_map.
Qed.

Lemma records_are_workflow_nodes_witness :
  Some OPTIMAL <> Some CRITICAL /\
  exists log w',
    executeWorkflow sampleDefinitions
      (diamond "djed_monitor" "djed_sim" "djed_sentinel" "djed_ledger"
               None (Some (mkCondition "dsi_below" None)) None None)
      (Some OPTIMAL) (worldAt 0)
    = Some (log, w') /\
    (length (nodeExecutions log) <= 4)%nat.
Proof.
  assert (Some OPTIMAL <> Some CRITICAL) as Hps by discriminate.
  split; [exact Hps |].
  destruct (records_are_workflow_nodes sampleDefinitions
              (diamond "djed_monitor" "djed_sim" "djed_sentinel" "djed_ledger"
                       None (Some (mkCondition "dsi_below" None)) None None)
              (Some OPTIMAL) (worldAt 0) Hps)
    as (log & w' & Hrun & _ & Hlen).
  exists log, w'. split; [exact Hrun | exact Hlen].
Defined.

Lemma connectedNodes_by_id workflow node :
  map id (connectedNodes workflow node) = successorIds workflow (id node).
Proof. reflexivity. Qed.

Lemma successorIds_spec workflow i j :
  In i (successorIds workflow j) <->
  exists c, In c (connections workflow) /\ from c = j /\ to c = i /\
            exists n, In n (nodes workflow) /\ id n = i.
Proof.
  unfold successorIds, connectedNodes. cbn [id]. rewrite in_map_iff. split.
  - intros (n & <- & Hn%list_elem_of_In%list_elem_of_omap).
    destruct Hn as (c & Hc%list_elem_of_In%filter_In & Hfind).
    destruct Hc as [Hc Hfrom%String.eqb_eq].
    apply find_some in Hfind as [Hn Hid%String.eqb_eq].
    exists c. repeat split; auto. exists n. auto.
  - intros (c & Hc & Hfrom & Hto & n & Hn & Hid).
    destruct (List.find (fun n0 => String.eqb (id n0) (to c)) (nodes workflow))
      as [m |] eqn:Hfind.
    + exists m. apply find_some in Hfind as Hm. destruct Hm as [_ Hm%String.eqb_eq].
      split; [congruence |]. apply list_elem_of_In, list_elem_of_omap.
      exists c. split; [| exact Hfind].
      apply list_elem_of_In, filter_In. split; [exact Hc |].
      now apply String.eqb_eq.
    + exfalso. apply (find_none _ _ Hfind) in Hn.
      rewrite Hid, <- Hto, String.eqb_refl in Hn. discriminate.
Qed.

Section Reachability.

Variable APPLET_DEFINITIONS : string -> AppletDefinition.
Variable workflow : Workflow.
Variable realTimeData : RealTimeData.

#[local] Abbreviation performNode :=
  (performNode APPLET_DEFINITIONS realTimeData).
#[local] Abbreviation executeNode :=
  (executeNode APPLET_DEFINITIONS workflow realTimeData).

(** The visited set and the record list only grow. *)
Lemma forEach_grows fuel ns run w run' w' :
  (forall n, n ∈ ns -> n ∈ nodes workflow) ->
  forEach (executeNode fuel) ns run w = Some (run', w') ->
  executedNodes run ⊆ executedNodes run' /\
  exists more, executions run' = executions run ++ more.
Proof.
  intros Hns Hrun.
  eapply (forEach_preserves APPLET_DEFINITIONS workflow realTimeData
            (fun r => executedNodes run ⊆ executedNodes r /\
                      exists more, executions r = executions run ++ more));
    [| exact Hns | | exact Hrun].
  - intros node r w0 _ _ [Hsub [more Hmore]].
    cbn [pushed executedNodes executions]. rewrite Hmore.
    split; [set_solver |]. eexists. now rewrite <- app_assoc.
  - split; [done |]. exists []. now rewrite app_nil_r.
Qed.

Lemma closedUpTo_grows pending pending' run run' more :
  executedNodes run ⊆ executedNodes run' ->
  executions run' = executions run ++ more ->
  (forall i, In i pending -> i ∈ executedNodes run' \/ In i pending') ->
  (forall e i, In e more -> status e = success ->
               In i (successorIds workflow (nodeId e)) ->
               i ∈ executedNodes run' \/ In i pending') ->
  closedUpTo workflow pending run -> closedUpTo workflow pending' run'.
Proof.
  intros Hsub Hmore Hpend Hnew Hclosed e i He Hst Hi.
  rewrite Hmore in He. apply in_app_or in He as [Hold | Hfresh].
  - destruct (Hclosed e i Hold Hst Hi) as [Hv | Hp]; [left; set_solver | auto].
  - eauto.
Qed.

(** [executeNode] marks its node and keeps the successors of successful
    records visited. *)
Lemma executeNode_closed fuel :
  forall pending node run w run' w',
    node ∈ nodes workflow ->
    closedUpTo workflow pending run ->
    executeNode fuel node run w = Some (run', w') ->
    closedUpTo workflow pending run' /\ id node ∈ executedNodes run'.
Proof.
  induction fuel as [| fuel IH];
    intros pending node run w run' w' Hin Hclosed Hrun; [discriminate Hrun |].
  destruct (decide (id node ∈ executedNodes run)) as [Hv | Hv].
  { rewrite executeNode_visited in Hrun by exact Hv.
    injection Hrun as <- _. now split. }
  rewrite executeNode_fresh in Hrun by exact Hv.
  destruct (performNode_record APPLET_DEFINITIONS realTimeData node w)
    as (e & w1 & Hperf & Hid & _ & Hstatus & _).
  rewrite Hperf in Hrun. clear Hperf.
  assert (closedUpTo workflow
            (if shouldExecute node realTimeData
             then successorIds workflow (id node) ++ pending else pending)
            (pushed run e (id node))) as Hclosed1.
  { apply (closedUpTo_grows pending _ run _ [e]);
      [cbn; set_solver | reflexivity | | | exact Hclosed].
    - intros i Hi. right. destruct (shouldExecute node realTimeData); [| exact Hi].
      apply in_or_app. now right.
    - intros e0 i [<- | []] Hst Hi. right. rewrite Hst in Hstatus.
      destruct (shouldExecute node realTimeData); [| discriminate].
      apply in_or_app. left. now rewrite <- Hid. }
  destruct (shouldExecute node realTimeData).
  2:{ injection Hrun as <- _. split; [exact Hclosed1 | cbn; set_solver]. }
  rewrite <- connectedNodes_by_id in Hclosed1.
  assert (id node ∈ executedNodes (pushed run e (id node))) as Hmark
    by (cbn; set_solver).
  assert (forall n, n ∈ connectedNodes workflow node -> n ∈ nodes workflow)
    as Hns by apply connectedNodes_in.
  revert Hclosed1 Hmark Hrun Hns. generalize (pushed run e (id node)) as run1.
  generalize w1 as w2.
  induction (connectedNodes workflow node) as [| n ns IHns];
    intros w2 run1 Hclosed1 Hmark Hrun Hns; cbn [forEach] in Hrun.
  - injection Hrun as <- _. now split.
  - destruct (executeNode fuel n run1 w2) as [[run2 w3] |] eqn:E;
      [| discriminate Hrun].
    destruct (IH _ n run1 w2 run2 w3 (Hns n ltac:(left)) Hclosed1 E)
      as [Hclosed2 Hn].
    destruct (forEach_grows fuel [n] run1 w2 run2 w3) as [Hsub [more Hmore]].
    { intros m ->%list_elem_of_singleton. apply Hns. left. }
    { cbn [forEach]. now rewrite E. }
    apply (IHns w3 run2); [| set_solver | exact Hrun |
                            intros m Hm; apply Hns; now right].
    intros e0 i He0 Hst Hi. destruct (Hclosed2 e0 i He0 Hst Hi) as [Hv0 | Hp];
      [now left |].
    cbn [map app] in Hp. destruct Hp as [<- | Hp]; [now left | now right].
Qed.

Lemma admitted_grows records more i :
  admitted workflow records i -> admitted workflow (records ++ more) i.
Proof.
  intros [Hentry | (e & He & Hst & Hi)]; [now left | right].
  exists e. split; [apply in_or_app; now left | auto].
Qed.

Lemma forEach_justified fuel :
  (forall node run w run' w',
     node ∈ nodes workflow ->
     admitted workflow (executions run) (id node) ->
     justified workflow run ->
     executeNode fuel node run w = Some (run', w') ->
     justified workflow run') ->
  forall ns run w run' w',
    (forall n, n ∈ ns -> n ∈ nodes workflow) ->
    (forall n, n ∈ ns -> admitted workflow (executions run) (id n)) ->
    justified workflow run ->
    forEach (executeNode fuel) ns run w = Some (run', w') ->
    justified workflow run'.
Proof.
  intros Hnode. induction ns as [| n ns IHns];
    intros run w run' w' Hns Hadm Hj Hrun; cbn [forEach] in Hrun.
  - now injection Hrun as <- _.
  - destruct (executeNode fuel n run w) as [[run2 w3] |] eqn:E;
      [| discriminate Hrun].
    destruct (forEach_grows fuel [n] run w run2 w3) as [_ [more Hmore]].
    { intros m ->%list_elem_of_singleton. apply Hns. left. }
    { cbn [forEach]. now rewrite E. }
    apply (IHns run2 w3 run' w'); [| | | exact Hrun].
    + intros m Hm. apply Hns. now right.
    + intros m Hm. rewrite Hmore. apply admitted_grows, Hadm. now right.
    + apply (Hnode n run w run2 w3); [apply Hns | apply Hadm |..]; auto; left.
Qed.

(** [executeNode] only records ids it was entitled to enter. *)
Lemma executeNode_justified fuel :
  forall node run w run' w',
    node ∈ nodes workflow ->
    admitted workflow (executions run) (id node) ->
    justified workflow run ->
    executeNode fuel node run w = Some (run', w') ->
    justified workflow run'.
Proof.
  induction fuel as [| fuel IH];
    intros node run w run' w' Hin Hadm Hj Hrun; [discriminate Hrun |].
  destruct (decide (id node ∈ executedNodes run)) as [Hv | Hv].
  { rewrite executeNode_visited in Hrun by exact Hv. now injection Hrun as <- _. }
  rewrite executeNode_fresh in Hrun by exact Hv.
  destruct (performNode_record APPLET_DEFINITIONS realTimeData node w)
    as (e & w1 & Hperf & Hid & _ & Hstatus & _).
  rewrite Hperf in Hrun. clear Hperf.
  assert (justified workflow (pushed run e (id node))) as Hj1.
  { intros e0 He0. cbn [pushed executions] in *.
    apply in_app_or in He0 as [Hold | [<- | []]]; apply admitted_grows.
    - now apply Hj.
    - now rewrite Hid. }
  destruct (shouldExecute node realTimeData); [| now injection Hrun as <- _].
  apply (forEach_justified fuel IH (connectedNodes workflow node)
           (pushed run e (id node)) w1 run' w');
    [apply connectedNodes_in | | exact Hj1 | exact Hrun].
  intros m Hm. right. exists e. cbn [pushed executions].
  split; [apply in_or_app; right; now left |]. split; [exact Hstatus |].
  rewrite Hid, <- connectedNodes_by_id. apply in_map.
  now apply list_elem_of_In.
Qed.

Lemma forEach_closed fuel :
  forall ns pending run w run' w',
    (forall n, n ∈ ns -> n ∈ nodes workflow) ->
    closedUpTo workflow pending run ->
    forEach (executeNode fuel) ns run w = Some (run', w') ->
    closedUpTo workflow pending run' /\
    forall n, n ∈ ns -> id n ∈ executedNodes run'.
Proof.
  induction ns as [| n ns IHns];
    intros pending run w run' w' Hns Hclosed Hrun; cbn [forEach] in Hrun.
  - injection Hrun as <- _. split; [exact Hclosed |]. intros n Hn.
    now apply elem_of_nil in Hn.
  - destruct (executeNode fuel n run w) as [[run2 w3] |] eqn:E;
      [| discriminate Hrun].
    destruct (executeNode_closed fuel pending n run w run2 w3
                (Hns n ltac:(left)) Hclosed E) as [Hclosed2 Hn].
    destruct (IHns pending run2 w3 run' w') as [Hclosed' Hrest];
      [intros m Hm; apply Hns; now right | exact Hclosed2 | exact Hrun |].
    split; [exact Hclosed' |].
    destruct (forEach_grows fuel ns run2 w3 run' w') as [Hsub _];
      [intros m Hm; apply Hns; now right | exact Hrun |].
    intros m [-> | Hm]%elem_of_cons; [set_solver | now apply Hrest].
Qed.

End Reachability.

Lemma entryNodes_nonempty (workflow : Workflow) :
  nodes workflow <> [] -> entryNodes workflow <> [].
Proof.
  unfold entryNodes. destruct (List.filter _ (nodes workflow)); [| easy].
  now destruct (nodes workflow).
Qed.

Lemma recorded_iff_visited (run : Run) (i : string) :
  consistent run -> (In i (map nodeId (executions run)) <-> i ∈ executedNodes run).
Proof.
  intros [_ H]. rewrite <- H. unfold recordedIds. symmetry.
  apply list_elem_of_In.
Qed.

(** X10.  Past the policy gate every entry node of the workflow has a
    record in the log; a workflow with at least one node therefore never
    yields an empty log, even when every node has an incoming connection
    and the first declared node stands in as the entry. *)
Theorem entry_nodes_are_recorded
    (APPLET_DEFINITIONS : string -> AppletDefinition) (workflow : Workflow)
    (protocolStatus : option ProtocolStatus) (w : World) :
  protocolStatus <> Some CRITICAL ->
  exists log w',
    executeWorkflow APPLET_DEFINITIONS workflow protocolStatus w
    = Some (log, w') /\
    (forall n, In n (entryNodes workflow) ->
               In (id n) (map nodeId (nodeExecutions log))) /\
    (nodes workflow <> [] -> nodeExecutions log <> []).
Proof.
  intros Hps%not_critical.
  destruct (executeWorkflow_run APPLET_DEFINITIONS workflow protocolStatus w Hps)
    as (run & w2 & log & w' & Hloop & Hrun & Hrec & Hcons & _).
  exists log, w'. split; [exact Hrun |]. rewrite Hrec.
  destruct (forEach_closed APPLET_DEFINITIONS workflow _ _ _ [] emptyRun _ _ _
              (entryNodes_in workflow) ltac:(intros ? ? []) Hloop)
    as [_ Hentries].
  assert (forall n, In n (entryNodes workflow) ->
                    In (id n) (map nodeId (executions run))) as Hall.
  { intros n Hn. apply (recorded_iff_visited run _ Hcons), Hentries.
    now apply list_elem_of_In. }
  split; [exact Hall |]. intros Hnodes%entryNodes_nonempty.
  destruct (entryNodes workflow) as [| n ns]; [easy |].
  intros Hempty. specialize (Hall n ltac:(left; reflexivity)).
  now rewrite Hempty in Hall.
Qed.

Lemma entry_nodes_are_recorded_witness :
  Some OPTIMAL <> Some CRITICAL /\
  exists log w',
    executeWorkflow sampleDefinitions
      (mkWorkflow "wf" "cycle"
         [mkNode "A" "djed_monitor" None; mkNode "B" "djed_sim" None]
         [mkConnection "A" "B"; mkConnection "B" "A"])
      (Some OPTIMAL) (worldAt 0)
    = Some (log, w') /\
    nodeExecutions log <> [].
Proof.
  assert (Some OPTIMAL <> Some CRITICAL) as Hps by discriminate.
  split; [exact Hps |].
  destruct (entry_nodes_are_recorded sampleDefinitions
              (mkWorkflow "wf" "cycle"
                 [mkNode "A" "djed_monitor" None; mkNode "B" "djed_sim" None]
                 [mkConnection "A" "B"; mkConnection "B" "A"])
              (Some OPTIMAL) (worldAt 0) Hps)
    as (log & w' & Hrun & _ & Hne).
  exists log, w'. split; [exact Hrun |]. apply Hne. discriminate.
Defined.

(** X11.  Past the policy gate the traversal misses nothing it should
    reach: whenever a record has status success, every connection leaving
    its node towards an existing node has its target recorded too. *)
Theorem successors_of_success_are_recorded
    (APPLET_DEFINITIONS : string -> AppletDefinition) (workflow : Workflow)
    (protocolStatus : option ProtocolStatus) (w : World) :
  protocolStatus <> Some CRITICAL ->
  exists log w',
    executeWorkflow APPLET_DEFINITIONS workflow protocolStatus w
    = Some (log, w') /\
    forall e c,
      In e (nodeExecutions log) -> status e = success ->
      In c (connections workflow) -> from c = nodeId e ->
      (exists n, In n (nodes workflow) /\ id n = to c) ->
      In (to c) (map nodeId (nodeExecutions log)).
Proof.
  intros Hps%not_critical.
  destruct (executeWorkflow_run APPLET_DEFINITIONS workflow protocolStatus w Hps)
    as (run & w2 & log & w' & Hloop & Hrun & Hrec & Hcons & _).
  exists log, w'. split; [exact Hrun |]. rewrite Hrec.
  destruct (forEach_closed APPLET_DEFINITIONS workflow _ _ _ [] emptyRun _ _ _
              (entryNodes_in workflow) ltac:(intros ? ? []) Hloop)
    as [Hclosed _].
  intros e c He Hst Hc Hfrom Hto.
  apply (recorded_iff_visited run _ Hcons).
  destruct (Hclosed e (to c) He Hst) as [Hv | []]; [| exact Hv].
  apply successorIds_spec. exists c. auto.
Qed.

Lemma successors_of_success_are_recorded_witness :
  Some OPTIMAL <> Some CRITICAL /\
  exists log w',
    executeWorkflow sampleDefinitions
      (diamond "djed_monitor" "djed_sim" "djed_sentinel" "djed_ledger"
               None None None None)
      (Some OPTIMAL) (worldAt 0)
    = Some (log, w') /\
    forall e c,
      In e (nodeExecutions log) -> status e = success ->
      In c (connections
              (diamond "djed_monitor" "djed_sim" "djed_sentinel" "djed_ledger"
                       None None None None)) ->
      from c = nodeId e ->
      (exists n,
         In n (nodes (diamond "djed_monitor" "djed_sim" "djed_sentinel"
                              "djed_ledger" None None None None)) /\
         id n = to c) ->
      In (to c) (map nodeId (nodeExecutions log)).
Proof.
  assert (Some OPTIMAL <> Some CRITICAL) as Hps by discriminate.
  split; [exact Hps |].
  exact (successors_of_success_are_recorded sampleDefinitions
           (diamond "djed_monitor" "djed_sim" "djed_sentinel" "djed_ledger"
                    None None None None)
           (Some OPTIMAL) (worldAt 0) Hps).
Defined.

(** X12.  Past the policy gate the traversal records nothing it was not
    led to: every record is that of an entry node, or of the target of a
    connection leaving a node whose own record has status success.  A node
    reachable only through skipped nodes gets no record. *)
Theorem records_are_reached
    (APPLET_DEFINITIONS : string -> AppletDefinition) (workflow : Workflow)
    (protocolStatus : option ProtocolStatus) (w : World) :
  protocolStatus <> Some CRITICAL ->
  exists log w',
    executeWorkflow APPLET_DEFINITIONS workflow protocolStatus w
    = Some (log, w') /\
    forall e,
      In e (nodeExecutions log) ->
      (exists n, In n (entryNodes workflow) /\ id n = nodeId e) \/
      (exists e' c,
         In e' (nodeExecutions log) /\ status e' = success /\
         In c (connections workflow) /\
         from c = nodeId e' /\ to c = nodeId e).
Proof.
  intros Hps%not_critical.
  destruct (executeWorkflow_run APPLET_DEFINITIONS workflow protocolStatus w Hps)
    as (run & w2 & log & w' & Hloop & Hrun & Hrec & _).
  exists log, w'. split; [exact Hrun |]. rewrite Hrec.
  assert (justified workflow run) as Hj.
  { eapply (forEach_justified APPLET_DEFINITIONS workflow _ _
              (executeNode_justified APPLET_DEFINITIONS workflow _ _)
              (entryNodes workflow) emptyRun);
      [apply entryNodes_in | | intros ? [] | exact Hloop].
    intros n Hn. left. exists n. split; [now apply list_elem_of_In | reflexivity]. }
  intros e He. destruct (Hj e He) as [Hentry | (e' & He' & Hst & Hi)];
    [now left | right].
  apply successorIds_spec in Hi as (c & Hc & Hfrom & Hto & _).
  exists e', c. auto.
Qed.

Lemma records_are_reached_witness :
  Some OPTIMAL <> Some CRITICAL /\
  exists log w',
    executeWorkflow sampleDefinitions
      (diamond "djed_monitor" "djed_sim" "djed_sentinel" "djed_ledger"
               (Some (mkCondition "dsi_below" None)) None None None)
      (Some OPTIMAL) (worldAt 0)
    = Some (log, w') /\
    forall e,
      In e (nodeExecutions log) ->
      (exists n,
         In n (entryNodes
                 (diamond "djed_monitor" "djed_sim" "djed_sentinel"
                          "djed_ledger"
                          (Some (mkCondition "dsi_below" None)) None None None)) /\
         id n = nodeId e) \/
      (exists e' c,
         In e' (nodeExecutions log) /\ status e' = success /\
         In c (connections
                 (diamond "djed_monitor" "djed_sim" "djed_sentinel"
                          "djed_ledger"
                          (Some (mkCondition "dsi_below" None)) None None None)) /\
         from c = nodeId e' /\ to c = nodeId e).
Proof.
  assert (Some OPTIMAL <> Some CRITICAL) as Hps by discriminate.
  split; [exact Hps |].
  exact (records_are_reached sampleDefinitions
           (diamond "djed_monitor" "djed_sim" "djed_sentinel" "djed_ledger"
                    (Some (mkCondition "dsi_below" None)) None None None)
           (Some OPTIMAL) (worldAt 0) Hps).
Defined.

(** *** The snapshot *)

Lemma fetchRealTimeData_world (w : World) :
  let w' := snd (fetchRealTimeData w) in
  events w'
  = events w ++ [EvFetch "/api/djed?endpoint=djed/state";
                 EvFetch "/api/prices?symbols=ERG";
                 EvFetch "/api/feed"] /\
  requests w' = (requests w + 3)%nat /\
  reads w' = reads w /\ draws w' = draws w /\
  clock w' = clock w /\ random w' = random w /\ network w' = network w.
Proof.
  unfold fetchRealTimeData, bind, fetch, ret. cbn.
  rewrite <- !app_assoc. repeat split. lia.
Qed.

(** X13.  Fetching the snapshot always issues the same three requests in
    the same order, whatever the answers: a failed request never stops the
    next one.  Each field is read from its own response only: a response
    that is rejected, not ok, unparsable or without a truthy [success]
    leaves its fields undefined, and two worlds that agree on the answer
    to the price request yield the same ERG price, however the other two
    requests fare. *)
Theorem snapshot_requests_are_independent (w : World) :
  let data := fst (fetchRealTimeData w) in
  let w' := snd (fetchRealTimeData w) in
  events w'
  = events w ++ [EvFetch "/api/djed?endpoint=djed/state";
                 EvFetch "/api/prices?symbols=ERG";
                 EvFetch "/api/feed"] /\
  (truthy_opt (prop "success"
                 (usable_body (network w (requests w)
                                 "/api/djed?endpoint=djed/state"))) = false ->
   reserveRatio data = None /\ djedPrice data = None) /\
  (truthy_opt (prop "success"
                 (usable_body (network w (S (requests w))
                                 "/api/prices?symbols=ERG"))) = false ->
   ergPrice data = None) /\
  (truthy_opt (prop "success"
                 (usable_body (network w (S (S (requests w)))
                                 "/api/feed"))) = false ->
   transactions data = None) /\
  (forall w2,
     network w2 (S (requests w2)) "/api/prices?symbols=ERG"
     = network w (S (requests w)) "/api/prices?symbols=ERG" ->
     ergPrice (fst (fetchRealTimeData w2)) = ergPrice data).
Proof.
  split; [apply fetchRealTimeData_world |].
  unfold fetchRealTimeData, bind, fetch, ret.
  cbn [fst snd requests network reserveRatio djedPrice ergPrice transactions].
  split; [intros H; rewrite H; split; reflexivity |].
  split; [intros H; now rewrite H |].
  split; [intros H; now rewrite H |].
  intros w2 ->. reflexivity.
Qed.

(** With the network down nothing is read. *)
Example snapshot_offline :
  fst (fetchRealTimeData (worldAt 0)) = mkData None None None None.
Proof. reflexivity. Qed.

(** X14.  A workflow without nodes, past the policy gate, still fetches
    the snapshot (three requests) and then completes with an empty list of
    records; no timer is set and no random number drawn. *)
Theorem empty_workflow_completes
    (APPLET_DEFINITIONS : string -> AppletDefinition) (workflow : Workflow)
    (protocolStatus : option ProtocolStatus) (w : World) :
  nodes workflow = [] ->
  protocolStatus <> Some CRITICAL ->
  exists log w',
    executeWorkflow APPLET_DEFINITIONS workflow protocolStatus w
    = Some (log, w') /\
    nodeExecutions log = [] /\
    log_status log = completed /\
    events w'
    = events w ++ [EvFetch "/api/djed?endpoint=djed/state";
                   EvFetch "/api/prices?symbols=ERG";
                   EvFetch "/api/feed"] /\
    draws w' = draws w.
Proof.
  intros Hnodes Hps%not_critical. unfold executeWorkflow, entryNodes.
  rewrite Hps, Hnodes. cbn [List.filter forEach].
  destruct (fetchRealTimeData_world (snd (Date_now w)))
    as (Hev & _ & _ & Hdraws & _).
  destruct (Date_now w) as [startTime w0] eqn:Hnow.
  assert (events w0 = events w /\ draws w0 = draws w) as [Hev0 Hdr0].
  { unfold Date_now in Hnow. injection Hnow as _ <-. now split. }
  cbn [snd] in *. destruct (fetchRealTimeData w0) as [data w1]. cbn [snd] in *.
  eexists _, _. split; [reflexivity |]. cbn.
  repeat split; congruence.
Qed.

Lemma empty_workflow_completes_witness :
  nodes (mkWorkflow "wf" "empty" [] [mkConnection "A" "B"]) = [] /\
  Some OPTIMAL <> Some CRITICAL /\
  exists log w',
    executeWorkflow sampleDefinitions
      (mkWorkflow "wf" "empty" [] [mkConnection "A" "B"])
      (Some OPTIMAL) (worldAt 0)
    = Some (log, w') /\
    nodeExecutions log = [] /\
    log_status log = completed.
Proof.
  assert (Some OPTIMAL <> Some CRITICAL) as Hps by discriminate.
  split; [reflexivity |]. split; [exact Hps |].
  destruct (empty_workflow_completes sampleDefinitions
              (mkWorkflow "wf" "empty" [] [mkConnection "A" "B"])
              (Some OPTIMAL) (worldAt 0) eq_refl Hps)
    as (log & w' & Hrun & Hrec & Hst & _).
  now exists log, w'.
Defined.

(** *** Outputs and conditions *)

Lemma generateOutput_nodata appletType realTimeData w :
  Js.falsy_opt (reserveRatio realTimeData)
  || Js.falsy_opt (ergPrice realTimeData) = true ->
  generateOutput appletType realTimeData w
  = (OutNoData "error" "No real-time data available" (fst (Date_now w)),
     snd (Date_now w)).
Proof.
  unfold generateOutput, bind, ret. destruct (Date_now w) as [t w1].
  cbn [fst snd]. unfold Js.falsy_opt.
  destruct (reserveRatio realTimeData) as [r |],
           (ergPrice realTimeData) as [p |]; try reflexivity.
  now intros ->.
Qed.

Lemma performNode_output APPLET_DEFINITIONS realTimeData node w :
  let e := snd (fst (performNode APPLET_DEFINITIONS realTimeData node w)) in
  status e = success ->
  exists w0, output e = Some (fst (generateOutput (type node) realTimeData w0)).
Proof.
  unfold performNode, bind, ret, Date_now, Math_random, sleep.
  destruct (shouldExecute node realTimeData); [| discriminate].
  destruct (generateOutput _ _ _) as [o w1] eqn:E. cbn [fst snd status output].
  intros _. eexists. now rewrite E.
Qed.

(** X15.  When the snapshot has no reserve ratio or no ERG price (missing
    or zero), a node whose condition lets it run is still recorded with
    status success, but every such record carries the error output
    "No real-time data available" instead of applet data. *)
Theorem success_without_data_carries_error
    (APPLET_DEFINITIONS : string -> AppletDefinition) (workflow : Workflow)
    (protocolStatus : option ProtocolStatus) (w : World) :
  protocolStatus <> Some CRITICAL ->
  Js.falsy_opt (reserveRatio (fst (fetchRealTimeData (snd (Date_now w)))))
  || Js.falsy_opt (ergPrice (fst (fetchRealTimeData (snd (Date_now w)))))
  = true ->
  exists log w',
    executeWorkflow APPLET_DEFINITIONS workflow protocolStatus w
    = Some (log, w') /\
    Forall (fun e =>
              status e = success ->
              exists t,
                output e
                = Some (OutNoData "error" "No real-time data available" t))
           (nodeExecutions log).
Proof.
  intros Hps%not_critical Hdata.
  destruct (executeWorkflow_run APPLET_DEFINITIONS workflow protocolStatus w Hps)
    as (run & w2 & log & w' & Hloop & Hrun & Hrec & _).
  exists log, w'. split; [exact Hrun |]. rewrite Hrec.
  set (data := fst (fetchRealTimeData (snd (Date_now w)))) in *.
  set (Q := fun e =>
              status e = success ->
              exists t,
                output e
                = Some (OutNoData "error" "No real-time data available" t)).
  eapply (forEach_preserves APPLET_DEFINITIONS workflow data
            (fun r => Forall Q (executions r)));
    [| apply entryNodes_in | | exact Hloop]; [| constructor].
  intros node run0 w0 _ _ HP. cbn [pushed executions].
  apply Forall_app. split; [exact HP |]. constructor; [| constructor].
  intros Hst.
  destruct (performNode_output APPLET_DEFINITIONS data node w0 Hst) as [w1 ->].
  rewrite (generateOutput_nodata _ _ _ Hdata). cbn [fst]. eauto.
Qed.

Lemma success_without_data_carries_error_witness :
  Some OPTIMAL <> Some CRITICAL /\
  Js.falsy_opt (reserveRatio (fst (fetchRealTimeData (snd (Date_now (worldAt 0))))))
  || Js.falsy_opt (ergPrice (fst (fetchRealTimeData (snd (Date_now (worldAt 0))))))
  = true /\
  exists log w',
    executeWorkflow sampleDefinitions
      (diamond "djed_monitor" "djed_sim" "djed_sentinel" "djed_ledger"
               None None None None)
      (Some OPTIMAL) (worldAt 0)
    = Some (log, w') /\
    Forall (fun e =>
              status e = success ->
              exists t,
                output e
                = Some (OutNoData "error" "No real-time data available" t))
           (nodeExecutions log).
Proof.
  assert (Some OPTIMAL <> Some CRITICAL) as Hps by discriminate.
  split; [exact Hps |]. split; [reflexivity |].
  exact (success_without_data_carries_error sampleDefinitions
           (diamond "djed_monitor" "djed_sim" "djed_sentinel" "djed_ledger"
                    None None None None)
           (Some OPTIMAL) (worldAt 0) Hps eq_refl).
Defined.

(** X16.  Zero counts as missing on both sides of a condition.  A
    threshold of 0 selects the default threshold (400, 500, 0.95 or 1.05),
    and a snapshot whose reserve ratio or protocol price is exactly 0 makes
    every condition false: a node with trigger dsi_below is skipped, not
    run, when the reserve ratio has fallen to 0. *)
Theorem zero_counts_as_missing :
  (forall conditionType realTimeData,
     evaluateCondition (mkCondition conditionType (Some 0%Q)) realTimeData
     = evaluateCondition (mkCondition conditionType None) realTimeData) /\
  (forall c e p t, evaluateCondition c (mkData (Some 0%Q) e p t) = false) /\
  (forall c r e t, evaluateCondition c (mkData r e (Some 0%Q) t) = false) /\
  (forall i appletType threshold e p t,
     shouldExecute
       (mkNode i appletType (Some (mkCondition "dsi_below" threshold)))
       (mkData (Some 0%Q) e p t) = false).
Proof.
  split; [reflexivity |]. split; [| split].
  - intros c e [p |] t; reflexivity.
  - intros c [r |] e t; [| reflexivity]. unfold evaluateCondition.
    cbn [reserveRatio djedPrice]. now rewrite orb_true_r.
  - intros i appletType threshold e [p |] t; reflexivity.
Qed.

(** X17.  A condition whose type the engine does not know (none of
    dsi_below, dsi_above, price_below, price_above, always) holds exactly
    when both the reserve ratio and the protocol price are present and
    non-zero: the default case lets the node run, but only after the data
    check. *)
Theorem unknown_condition_type (node : WorkflowNode) (c : Condition)
    (realTimeData : RealTimeData) :
  condition node = Some c ->
  ~ In (condition_type c)
       ["dsi_below"; "dsi_above"; "price_below"; "price_above"; "always"] ->
  shouldExecute node realTimeData
  = negb (Js.falsy_opt (reserveRatio realTimeData)
          || Js.falsy_opt (djedPrice realTimeData)).
Proof.
  intros Hc Hty. unfold shouldExecute, evaluateCondition. rewrite Hc.
  assert (forall s, In s ["dsi_below"; "dsi_above"; "price_below";
                          "price_above"; "always"] ->
                    String.eqb (condition_type c) s = false) as Hneq.
  { intros s Hs. apply String.eqb_neq. intros E. apply Hty. now rewrite E. }
  rewrite !Hneq by (cbn; auto 10). cbn [negb].
  destruct (reserveRatio realTimeData) as [r |]; [| reflexivity].
  destruct (djedPrice realTimeData) as [p |];
    [| cbn [Js.falsy_opt]; now rewrite orb_true_r].
  cbn [Js.falsy_opt]. now destruct (Js.falsy r || Js.falsy p).
Qed.

Lemma unknown_condition_type_witness :
  condition (mkNode "n" "djed_monitor" (Some (mkCondition "volume_above" None)))
  = Some (mkCondition "volume_above" None) /\
  ~ In (condition_type (mkCondition "volume_above" None))
       ["dsi_below"; "dsi_above"; "price_below"; "price_above"; "always"] /\
  shouldExecute
    (mkNode "n" "djed_monitor" (Some (mkCondition "volume_above" None)))
    (mkData (Some 525%Q) None (Some 1%Q) None)
  = negb (Js.falsy_opt (Some 525%Q) || Js.falsy_opt (Some 1%Q)).
Proof.
  assert (~ In "volume_above"
               ["dsi_below"; "dsi_above"; "price_below"; "price_above"; "always"])
    as Hty.
  { intros [H | [H | [H | [H | [H | []]]]]]; discriminate H. }
  split; [reflexivity |]. split; [exact Hty |].
  exact (unknown_condition_type
           (mkNode "n" "djed_monitor" (Some (mkCondition "volume_above" None)))
           (mkCondition "volume_above" None)
           (mkData (Some 525%Q) None (Some 1%Q) None) eq_refl Hty).
Defined.

Lemma falsy_false (q : Q) : ~ (q == 0)%Q -> Js.falsy q = false.
Proof.
  intros H. unfold Js.falsy. apply not_true_iff_false.
  now rewrite Qeq_bool_iff.
Qed.

(** X18.  The applet outputs grade the reserve ratio on their own scale,
    which differs from the status bands of the [djed/state] route.  With
    both metrics present and non-zero, the monitor applet reports OPTIMAL
    exactly when the route's status is OPTIMAL and WARNING in every other
    case, so never CRITICAL, not even below 200; the sentinel applet
    reports threat level CRITICAL as soon as the route's status is not
    OPTIMAL, that is already below 400. *)
Theorem applet_grades_differ_from_route (realTimeData : RealTimeData)
    (ratio price : Q) (w : World) :
  reserveRatio realTimeData = Some ratio ->
  ergPrice realTimeData = Some price ->
  ~ (ratio == 0)%Q -> ~ (price == 0)%Q ->
  (exists supply balance t,
     fst (generateOutput "djed_monitor" realTimeData w)
     = OutMonitor ratio supply balance
         (match djedStateStatus ratio with
          | OPTIMAL => "OPTIMAL"
          | WARNING | CRITICAL => "WARNING"
          end) t) /\
  (exists stress vulnerabilities t,
     fst (generateOutput "djed_sentinel" realTimeData w)
     = OutSentinel
         (match djedStateStatus ratio with
          | OPTIMAL => "NORMAL"
          | WARNING | CRITICAL => "CRITICAL"
          end) stress vulnerabilities t).
Proof.
  intros Hr Hp Hr0 Hp0. unfold generateOutput, bind, ret.
  destruct (Date_now w) as [t w1]. rewrite Hr, Hp.
  rewrite (falsy_false _ Hr0), (falsy_false _ Hp0). cbn [orb].
  destruct (if Js.falsy_opt (transactions realTimeData) then _ else _)
    as [txCount w2] eqn:Etx.
  cbn [String.eqb Ascii.eqb Bool.eqb andb].
  unfold djedStateStatus, Js.lt, Js.ge.
  destruct (Math_random w2) as [r1 w3]. destruct (Math_random w3) as [r2 w4].
  cbn [fst].
  destruct (Qle_bool 400 ratio); [| destruct (Qle_bool 200 ratio)];
    (split; eexists _, _, _; reflexivity).
Qed.

Lemma applet_grades_differ_from_route_witness :
  reserveRatio (mkData (Some 150%Q) (Some (145 # 100)%Q) (Some 1%Q) None)
  = Some 150%Q /\
  ergPrice (mkData (Some 150%Q) (Some (145 # 100)%Q) (Some 1%Q) None)
  = Some (145 # 100)%Q /\
  ~ (150 == 0)%Q /\ ~ (145 # 100 == 0)%Q /\
  djedStateStatus 150 = CRITICAL /\
  exists supply balance t,
    fst (generateOutput "djed_monitor"
           (mkData (Some 150%Q) (Some (145 # 100)%Q) (Some 1%Q) None) (worldAt 0))
    = OutMonitor 150 supply balance "WARNING" t.
Proof.
  assert (~ (150 == 0)%Q) as H1 by discriminate.
  assert (~ (145 # 100 == 0)%Q) as H2 by discriminate.
  split; [reflexivity |]. split; [reflexivity |].
  split; [exact H1 |]. split; [exact H2 |]. split; [reflexivity |].
  exact (proj1 (applet_grades_differ_from_route
                  (mkData (Some 150%Q) (Some (145 # 100)%Q) (Some 1%Q) None)
                  150 (145 # 100)%Q (worldAt 0) eq_refl eq_refl H1 H2)).
Defined.

End TraversalFacts.

(** ** Client-side retry, for any number of attempts *)

Module RetryGeneralFacts.

Import Retry.

Lemma allRejected_tail url w n w1 :
  allRejected url w (S n) ->
  network w1 = network w -> requests w1 = S (requests w) ->
  allRejected url w1 n.
Proof.
  intros H Hnet Hreq k Hk. rewrite Hnet, Hreq.
  replace (S (requests w) + k)%nat with (requests w + S k)%nat by lia.
  apply H. lia.
Qed.

(** The loop when every remaining attempt fails. *)
Lemma attempts_all_fail url maxRetries initialDelay :
  forall remaining attempt lastError w,
    (attempt + remaining = maxRetries)%nat ->
    allRejected url w remaining ->
    exists e w',
      attempts url maxRetries initialDelay remaining attempt lastError w
      = (Rejected e, w') /\
      events w'
      = events w ++ schedule url (backoffFrom initialDelay attempt
                                              (remaining - 1)) remaining /\
      match remaining with
      | O => e = match lastError with
                 | Some e0 => e0
                 | None => "Failed to fetch data after retries"
                 end
      | S r => attemptResult (network w (requests w + r)%nat url) = Rejected e
      end.
Proof.
  induction remaining as [| r IH]; intros attempt lastError w Hsum Hall.
  - cbn [attempts ret]. eexists _, _. split; [reflexivity |].
    split; [now rewrite app_nil_r | reflexivity].
  - cbn [attempts]. unfold bind at 1. unfold fetch at 1.
    destruct (Hall 0%nat ltac:(lia)) as [e He].
    rewrite Nat.add_0_r in He. rewrite He.
    set (w1 := mkWorld (clock w) (reads w) (random w) (draws w) (network w)
                       (S (requests w)) (events w ++ [EvFetch url])).
    unfold bind at 1.
    destruct r as [| r'].
    + replace (attempt <? maxRetries - 1)%nat with false
        by (symmetry; apply Nat.ltb_ge; lia).
      cbn [ret attempts]. eexists _, _. split; [reflexivity |].
      split; [reflexivity |]. now rewrite Nat.add_0_r.
    + replace (attempt <? maxRetries - 1)%nat with true
        by (symmetry; apply Nat.ltb_lt; lia).
      unfold sleep at 1.
      set (w2 := mkWorld (clock w1) (reads w1) (random w1) (draws w1)
                         (network w1) (requests w1)
                         (events w1 ++ [EvTimeout _])).
      destruct (IH (S attempt) (Some e) w2) as (e' & w' & Hrun & Hev & Hlast);
        [lia | apply (allRejected_tail url w (S r')); auto |].
      exists e', w'. split; [exact Hrun |]. split.
      * rewrite Hev. subst w2 w1. cbn [events]. rewrite <- !app_assoc.
        cbn [Nat.sub schedule backoffFrom app]. rewrite Nat.sub_0_r.
        reflexivity.
      * subst w2 w1. cbn [network requests] in Hlast.
        now replace (requests w + S r')%nat with (S (requests w) + r')%nat by lia.
Qed.

(** The loop when the attempt number [k] from here is the first to
    succeed. *)
Lemma attempts_first_success url maxRetries initialDelay v :
  forall k remaining attempt lastError w,
    (k < remaining)%nat ->
    (attempt + remaining = maxRetries)%nat ->
    allRejected url w k ->
    attemptResult (network w (requests w + k)%nat url) = Resolved v ->
    exists w',
      attempts url maxRetries initialDelay remaining attempt lastError w
      = (Resolved v, w') /\
      events w'
      = events w ++ schedule url (backoffFrom initialDelay attempt k) (S k).
Proof.
  induction k as [| k IH]; intros remaining attempt lastError w Hk Hsum Hall Hok;
    (destruct remaining as [| r]; [lia |]);
    cbn [attempts]; unfold bind at 1; unfold fetch at 1.
  - rewrite Nat.add_0_r in Hok. rewrite Hok. cbn [ret].
    eexists. split; reflexivity.
  - destruct (Hall 0%nat ltac:(lia)) as [e He].
    rewrite Nat.add_0_r in He. rewrite He.
    set (w1 := mkWorld (clock w) (reads w) (random w) (draws w) (network w)
                       (S (requests w)) (events w ++ [EvFetch url])).
    unfold bind at 1.
    replace (attempt <? maxRetries - 1)%nat with true
      by (symmetry; apply Nat.ltb_lt; lia).
    unfold sleep at 1.
    set (w2 := mkWorld (clock w1) (reads w1) (random w1) (draws w1)
                       (network w1) (requests w1)
                       (events w1 ++ [EvTimeout _])).
    destruct (IH r (S attempt) (Some e) w2) as (w' & Hrun & Hev);
      [lia | lia | apply (allRejected_tail url w k); auto | |].
    { subst w2 w1. cbn [network requests].
      now replace (S (requests w) + k)%nat with (requests w + S k)%nat by lia. }
    exists w'. split; [exact Hrun |].
    rewrite Hev. subst w2 w1. cbn [events]. rewrite <- !app_assoc.
    reflexivity.
Qed.

Lemma schedule_next url d waits n :
  schedule url (d :: waits) (S (S n))
  = EvFetch url :: EvTimeout d :: schedule url waits (S n).
Proof. reflexivity. Qed.

Lemma fetchesOf_schedule url waits n :
  (n - 1 <= length waits)%nat ->
  fetchesOf (schedule url waits n) = repeat url n.
Proof.
  unfold fetchesOf. revert waits.
  induction n as [| n IH]; intros waits Hlen;
    [destruct waits; reflexivity |].
  destruct n as [| n']; [destruct waits; reflexivity |].
  destruct waits as [| d waits]; [cbn in Hlen; lia |].
  rewrite schedule_next.
  change (repeat url (S (S n'))) with (url :: repeat url (S n')).
  rewrite <- (IH waits) by (cbn in *; lia). reflexivity.
Qed.

Lemma delaysOf_schedule url waits n :
  length waits = (n - 1)%nat -> delaysOf (schedule url waits n) = waits.
Proof.
  unfold delaysOf. revert waits. induction n as [| n IH]; intros waits Hlen.
  - destruct waits; [reflexivity | discriminate].
  - destruct n as [| n'].
    + destruct waits; [reflexivity | discriminate].
    + destruct waits as [| d waits]; [discriminate |].
      rewrite schedule_next.
      rewrite <- (IH waits) at 2 by (cbn in *; lia). reflexivity.
Qed.

Lemma backoffFrom_length initialDelay attempt count :
  length (backoffFrom initialDelay attempt count) = count.
Proof.
  revert attempt. induction count as [| c IH]; intros attempt; [reflexivity |].
  cbn [backoffFrom length]. now rewrite IH.
Qed.

(** X19.  For any number of attempts and any initial delay: if the
    attempt number k (counting from 0, with k below maxRetries) is the
    first whose response is ok and parses, [fetchWithRetry] resolves with
    that body after exactly k + 1 requests and the k waits initialDelay,
    2 * initialDelay, ..., and asks for nothing more; a first attempt that
    succeeds costs one request and no wait. *)
Theorem retry_stops_at_first_success (url : string) (maxRetries : nat)
    (initialDelay : Z) (k : nat) (v : json) (w : World) :
  (k < maxRetries)%nat ->
  allRejected url w k ->
  attemptResult (network w (requests w + k)%nat url) = Resolved v ->
  fst (fetchWithRetry url maxRetries initialDelay w) = Resolved v /\
  newEvents w (snd (fetchWithRetry url maxRetries initialDelay w))
  = schedule url (backoffFrom initialDelay 0 k) (S k) /\
  fetchesOf (newEvents w (snd (fetchWithRetry url maxRetries initialDelay w)))
  = repeat url (S k) /\
  delaysOf (newEvents w (snd (fetchWithRetry url maxRetries initialDelay w)))
  = backoffFrom initialDelay 0 k.
Proof.
  intros Hk Hall Hok. unfold fetchWithRetry.
  destruct (attempts_first_success url maxRetries initialDelay v k maxRetries
              0 None w Hk eq_refl Hall Hok) as (w' & -> & Hev).
  cbn [fst snd]. rewrite (RetryFacts.newEvents_app _ _ _ Hev).
  split; [reflexivity |]. split; [reflexivity |].
  split.
  - apply fetchesOf_schedule. rewrite backoffFrom_length. lia.
  - apply delaysOf_schedule. rewrite backoffFrom_length. lia.
Qed.

Lemma retry_stops_at_first_success_witness :
  (0 < 3)%nat /\
  fst (fetchWithRetry "/api/djed?endpoint=info" 3 1000
         (mkWorld (fun _ => 0%Z) 0 (fun _ => 0%Q) 0
                  (fun _ _ => HttpResponse true 200 "OK" (inr JNull)) 0 []))
  = Resolved JNull /\
  fetchesOf
    (newEvents
       (mkWorld (fun _ => 0%Z) 0 (fun _ => 0%Q) 0
                (fun _ _ => HttpResponse true 200 "OK" (inr JNull)) 0 [])
       (snd (fetchWithRetry "/api/djed?endpoint=info" 3 1000
               (mkWorld (fun _ => 0%Z) 0 (fun _ => 0%Q) 0
                        (fun _ _ => HttpResponse true 200 "OK" (inr JNull))
                        0 []))))
  = ["/api/djed?endpoint=info"].
Proof.
  assert (0 < 3)%nat as Hk by lia.
  split; [exact Hk |].
  pose proof (retry_stops_at_first_success "/api/djed?endpoint=info" 3 1000 0
                JNull
                (mkWorld (fun _ => 0%Z) 0 (fun _ => 0%Q) 0
                         (fun _ _ => HttpResponse true 200 "OK" (inr JNull))
                         0 [])
                Hk ltac:(intros j Hj; lia) eq_refl) as (Hres & _ & Hfetch & _).
  split; [exact Hres | exact Hfetch].
Defined.

Lemma backoffFrom_sum initialDelay :
  forall count attempt,
    (fold_right Qplus 0 (backoffFrom initialDelay attempt count)
     == inject_Z (initialDelay * 2 ^ Z.of_nat attempt
                  * (2 ^ Z.of_nat count - 1)))%Q.
Proof.
  induction count as [| c IH]; intros attempt.
  - cbn [backoffFrom fold_right]. rewrite Z.mul_0_r. reflexivity.
  - cbn [backoffFrom fold_right]. rewrite IH, <- inject_Z_plus.
    apply inject_Z_injective.
    rewrite !Nat2Z.inj_succ, !Z.pow_succ_r by lia. ring.
Qed.

(** X20.  For any number of attempts and any initial delay: when every
    attempt fails, [fetchWithRetry] makes exactly maxRetries requests,
    waits initialDelay * 2^j after the failed attempt number j except after
    the last one, in total initialDelay * (2^(maxRetries - 1) - 1)
    milliseconds, and rejects with the error of the last attempt.  With
    maxRetries = 0 it makes no request and rejects with
    "Failed to fetch data after retries". *)
Theorem retry_exhausted (url : string) (maxRetries : nat) (initialDelay : Z)
    (w : World) :
  allRejected url w maxRetries ->
  let w' := snd (fetchWithRetry url maxRetries initialDelay w) in
  (exists e,
     fst (fetchWithRetry url maxRetries initialDelay w) = Rejected e /\
     match maxRetries with
     | O => e = "Failed to fetch data after retries"
     | S last =>
         attemptResult (network w (requests w + last)%nat url) = Rejected e
     end) /\
  fetchesOf (newEvents w w') = repeat url maxRetries /\
  delaysOf (newEvents w w') = backoffFrom initialDelay 0 (maxRetries - 1) /\
  (totalDelay (newEvents w w')
   == inject_Z (initialDelay * (2 ^ Z.of_nat (maxRetries - 1) - 1)))%Q.
Proof.
  intros Hall w'. subst w'. unfold fetchWithRetry, totalDelay.
  destruct (attempts_all_fail url maxRetries initialDelay maxRetries 0 None w
              eq_refl Hall) as (e & w' & -> & Hev & Hlast).
  cbn [fst snd]. rewrite (RetryFacts.newEvents_app _ _ _ Hev).
  split; [exists e; split; [reflexivity | exact Hlast] |].
  assert (delaysOf (schedule url (backoffFrom initialDelay 0 (maxRetries - 1))
                             maxRetries)
          = backoffFrom initialDelay 0 (maxRetries - 1)) as Hdelays
    by (apply delaysOf_schedule, backoffFrom_length).
  split; [apply fetchesOf_schedule; rewrite backoffFrom_length; lia |].
  split; [exact Hdelays |].
  rewrite Hdelays, backoffFrom_sum. apply inject_Z_injective.
  change (2 ^ Z.of_nat 0)%Z with 1%Z. lia.
Qed.

Lemma retry_exhausted_witness :
  allRejected "/api/djed?endpoint=blocks?limit=10" (worldAt 0) 3 /\
  fetchesOf
    (newEvents (worldAt 0)
       (snd (fetchWithRetry "/api/djed?endpoint=blocks?limit=10" 3 1000
                            (worldAt 0))))
  = repeat "/api/djed?endpoint=blocks?limit=10" 3 /\
  (totalDelay
     (newEvents (worldAt 0)
        (snd (fetchWithRetry "/api/djed?endpoint=blocks?limit=10" 3 1000
                             (worldAt 0))))
   == inject_Z (1000 * (2 ^ Z.of_nat (3 - 1) - 1)))%Q.
Proof.
  assert (allRejected "/api/djed?endpoint=blocks?limit=10" (worldAt 0) 3)
    as Hall by (intros k _; exists "offline"; reflexivity).
  split; [exact Hall |].
  pose proof (retry_exhausted "/api/djed?endpoint=blocks?limit=10" 3 1000
                (worldAt 0) Hall) as (_ & Hfetch & _ & Htotal).
  split; [exact Hfetch | exact Htotal].
Defined.

End RetryGeneralFacts.

(** ** The synthetic protocol state of the [djed/state] route *)

Module DjedRouteFacts.
Import DjedRoute.

Lemma Math_trunc_nonneg (q : Q) :
  (0 <= q -> inject_Z (Math_trunc q) <= q < inject_Z (Math_trunc q) + 1)%Q.
Proof.
  intros Hq. unfold Math_trunc.
  destruct (Qle_bool 0 q) eqn:E.
  - split; [apply Qfloor_le |].
    rewrite <- (inject_Z_plus _ 1). apply Qlt_floor.
  - apply not_true_iff_false in E. exfalso. apply E.
    now apply Qle_bool_iff.
Qed.

Lemma Math_trunc_nonpos (q : Q) :
  (q <= 0 -> inject_Z (Math_trunc q) - 1 < q <= inject_Z (Math_trunc q))%Q.
Proof.
  intros Hq. unfold Math_trunc.
  destruct (Qle_bool 0 q) eqn:E.
  - apply Qle_bool_iff in E.
    assert (q == 0)%Q as Hq0 by lra.
    rewrite (Qfloor_comp _ _ Hq0).
    change (inject_Z (Qfloor 0)) with 0%Q. lra.
  - split; [| apply Qle_ceiling].
    pose proof (Qceiling_lt q) as H.
    unfold Z.sub in H. rewrite inject_Z_plus in H.
    rewrite inject_Z_opp in H. change (inject_Z 1) with 1%Q in H. lra.
Qed.

Lemma rem_decompose (a b : Q) :
  (0 < b -> rem a b == b * (a / b - inject_Z (Math_trunc (a / b))))%Q.
Proof. intros Hb. unfold rem. field. lra. Qed.

Lemma rem_nonneg (a b : Q) :
  (0 < b -> 0 <= a -> 0 <= rem a b < b)%Q.
Proof.
  intros Hb Ha. rewrite (rem_decompose a b Hb).
  assert (0 <= a / b)%Q as Hq.
  { unfold Qdiv. apply Qmult_le_0_compat; [exact Ha |].
    apply Qlt_le_weak, Qinv_lt_0_compat, Hb. }
  pose proof (Math_trunc_nonneg _ Hq) as [Hlo Hhi].
  split; nra.
Qed.

Lemma rem_nonpos (a b : Q) :
  (0 < b -> a <= 0 -> - b < rem a b <= 0)%Q.
Proof.
  intros Hb Ha. rewrite (rem_decompose a b Hb).
  assert (a / b <= 0)%Q as Hq.
  { unfold Qdiv.
    assert (0 <= (- a) * / b)%Q
      by (apply Qmult_le_0_compat;
          [lra | apply Qlt_le_weak, Qinv_lt_0_compat, Hb]).
    lra. }
  pose proof (Math_trunc_nonpos _ Hq) as [Hlo Hhi].
  split; nra.
Qed.

Lemma rem_bounded (a b : Q) : (0 < b -> - b < rem a b < b)%Q.
Proof.
  intros Hb. destruct (Qlt_le_dec a 0) as [Ha | Ha].
  - pose proof (rem_nonpos a b Hb (Qlt_le_weak _ _ Ha)). lra.
  - pose proof (rem_nonneg a b Hb Ha). lra.
Qed.

Lemma targetRatio_bounds (avg : Q) :
  (300 < 500 + rem avg 200 < 700)%Q.
Proof.
  assert (0 < 200)%Q as H200 by lra.
  pose proof (rem_bounded avg 200 H200). lra.
Qed.

Lemma or_default_truthy (x : option Q) (d : Q) :
  Js.falsy d = false -> Js.falsy (Js.or_default x d) = false.
Proof.
  intros Hd. destruct x as [q |]; cbn [Js.or_default]; [| exact Hd].
  destruct (Js.falsy q) eqn:E; [exact Hd | exact E].
Qed.

Lemma truthy_nonzero (q : Q) : Js.falsy q = false -> ~ (q == 0)%Q.
Proof.
  unfold Js.falsy. intros H E. apply Qeq_bool_iff in E. congruence.
Qed.

Lemma reserveRatio_target (ergPrice : Q) (networkState blocksData : option json)
    (now : Z) :
  Js.falsy ergPrice = false ->
  let d := deriveState ergPrice networkState blocksData now in
  ~ (djedSupply d == 0)%Q /\
  (reserveRatio d == 500 + rem (avgTxCount (items_of blocksData)) 200)%Q.
Proof.
  intros Hp%truthy_nonzero d. subst d. cbn [deriveState djedSupply reserveRatio].
  set (totalSupply :=
         Js.or_default (Engine.number_of (Engine.prop "supply" networkState))
                       97739924).
  assert (~ (totalSupply == 0)%Q) as Hs
    by (apply truthy_nonzero, or_default_truthy; reflexivity).
  pose proof (targetRatio_bounds (avgTxCount (items_of blocksData))) as Ht.
  set (targetRatio := (500 + rem (avgTxCount (items_of blocksData)) 200)%Q) in *.
  assert (~ (targetRatio == 0)%Q) as Ht0 by lra.
  split.
  - intros E. apply Hp.
    assert (totalSupply * (15 # 10000) * ergPrice * 100 == 0)%Q as E'.
    { assert (totalSupply * (15 # 10000) * ergPrice * 100
              == totalSupply * (15 # 10000) * ergPrice * 100 / targetRatio
                 * targetRatio)%Q as -> by (field; exact Ht0).
      rewrite E. ring. }
    apply Qmult_integral in E' as [E' | E']; [| lra].
    apply Qmult_integral in E' as [E' | E']; [| exact E'].
    apply Qmult_integral in E' as [E' | E']; [| lra].
    now apply Hs in E'.
  - field. repeat split; [exact Ht0 | exact Hp | exact Hs].
Qed.

Lemma djedState_derives (w : World) :
  exists ergPrice networkState blocksData now,
    Js.falsy ergPrice = false /\
    fst (djedState w) = deriveState ergPrice networkState blocksData now.
Proof.
  unfold djedState, bind.
  destruct (priceFromSources w) as [p w1].
  destruct (fetch (ERGO_API_BASE ++ "/info") w1) as [infoResponse w2].
  destruct (fetch (ERGO_API_BASE ++ "/blocks?limit=10") w2)
    as [blocksResponse w3].
  destruct (Date_now w3) as [now w4]. unfold ret. cbn [fst].
  eexists _, _, _, _. split; [| reflexivity].
  apply or_default_truthy. reflexivity.
Qed.

Lemma status_of_ratio (ergPrice : Q) (networkState blocksData : option json)
    (now : Z) :
  status (deriveState ergPrice networkState blocksData now)
  = djedStateStatus
      (reserveRatio (deriveState ergPrice networkState blocksData now)).
Proof. reflexivity. Qed.

Lemma sumTxCount_nonneg (recentBlocks : list json) :
  Forall (fun block => (0 <= transactionsCount block)%Q) recentBlocks ->
  (0 <= sumTxCount recentBlocks)%Q.
Proof.
  intros Hall. unfold sumTxCount.
  assert (forall acc,
            (0 <= acc)%Q ->
            (0 <= fold_left (fun sum block => sum + transactionsCount block)
                            recentBlocks acc)%Q) as Hfold.
  { induction Hall as [| block rest Hb _ IH]; intros acc Hacc.
    - exact Hacc.
    - cbn [fold_left]. apply IH. lra. }
  apply Hfold. lra.
Qed.

Lemma avgTxCount_nonneg (recentBlocks : list json) :
  Forall (fun block => (0 <= transactionsCount block)%Q) recentBlocks ->
  (0 <= avgTxCount recentBlocks)%Q.
Proof.
  intros Hall. unfold avgTxCount.
  destruct (0 <? length recentBlocks)%nat eqn:E; [| lra].
  apply Nat.ltb_lt in E. unfold Qdiv.
  apply Qmult_le_0_compat; [now apply sumTxCount_nonneg |].
  apply Qlt_le_weak, Qinv_lt_0_compat.
  change 0%Q with (inject_Z 0). rewrite <- Zlt_Qlt. lia.
Qed.

(** X21.  The reserve ratio the live branch of the [djed/state] route
    reports does not depend on the ERG price or on the supply it fetched:
    the two cancel, and the ratio is 500 plus the average transaction count
    of the recent blocks modulo 200.  No division in the derivation is by
    zero: the stablecoin supply it divides by is never 0. *)
Theorem synthetic_ratio_ignores_price_and_supply
    (ergPrice1 ergPrice2 : Q) (networkState1 networkState2 : option json)
    (blocksData : option json) (now1 now2 : Z) :
  Js.falsy ergPrice1 = false ->
  Js.falsy ergPrice2 = false ->
  let d1 := deriveState ergPrice1 networkState1 blocksData now1 in
  let d2 := deriveState ergPrice2 networkState2 blocksData now2 in
  (reserveRatio d1 == reserveRatio d2)%Q /\
  (reserveRatio d1 == 500 + rem (avgTxCount (items_of blocksData)) 200)%Q /\
  ~ (djedSupply d1 == 0)%Q.
Proof.
  intros Hp1 Hp2 d1 d2.
  destruct (reserveRatio_target ergPrice1 networkState1 blocksData now1 Hp1)
    as [Hs1 Hr1].
  destruct (reserveRatio_target ergPrice2 networkState2 blocksData now2 Hp2)
    as [_ Hr2].
  split; [| split; [exact Hr1 | exact Hs1]].
  subst d1 d2. now rewrite Hr1, Hr2.
Qed.

Lemma synthetic_ratio_ignores_price_and_supply_witness :
  (reserveRatio (deriveState (145 # 100) None None 0)
   == reserveRatio
        (deriveState 3 (Some (JObj [("supply", JNum 1000)])) None 7))%Q.
Proof.
  apply (synthetic_ratio_ignores_price_and_supply
           (145 # 100) 3 None (Some (JObj [("supply", JNum 1000)])) None 0 7);
    reflexivity.
Defined.

Lemma not_critical_near_target (avg reported : Q) :
  (Qabs (reported - (500 + rem avg 200)) <= 100)%Q ->
  djedStateStatus reported <> CRITICAL.
Proof.
  intros Hnear. apply Qabs_Qle_condition in Hnear.
  pose proof (targetRatio_bounds avg) as Ht.
  unfold djedStateStatus, Js.ge.
  destruct (Qle_bool 400 reported); [discriminate |].
  destruct (Qle_bool 200 reported) eqn:E; [discriminate |].
  exfalso. apply not_true_iff_false in E. apply E, Qle_bool_iff. lra.
Qed.

Lemma documented_example_body :
  documentedBody
    (Some (JObj [("ergo", JObj [("usd", JNum (145 # 100))]);
                 ("supply", JNum 97739924);
                 ("items",
                  JArr [JObj [("transactionsCount", JNum 250)];
                        JObj []])])).
Proof.
  assert (forall q, (1 # 10 ^ 100 <= q)%Q -> (q <= inject_Z (10 ^ 100))%Q ->
                    (0 <= q)%Q -> inRange q) as Hrange.
  { intros q Hlo Hhi Hq. right. rewrite Qabs_pos by exact Hq. now split. }
  unfold documentedBody. cbn.
  split; [apply Hrange; now apply Qle_bool_iff |].
  split; [exact I |].
  split; [apply Hrange; now apply Qle_bool_iff |].
  constructor; [| constructor; [exact I | constructor]].
  cbn. apply Hrange; now apply Qle_bool_iff.
Qed.

(** X22.  On upstream answers of the documented shape and range, and in
    exact arithmetic, the live branch of the [djed/state] route reports a
    reserve ratio strictly between 300 and 700, whatever the prices, the
    supply and the transaction counts are and whichever requests fail; so
    its status is OPTIMAL or WARNING and never CRITICAL.  The margin is
    wide: for every average transaction count, a reported ratio within 100
    of the target 500 + (average % 200) is not graded CRITICAL either, so
    the rounding of doubles cannot change that. *)
Theorem djedState_never_critical (w : World) :
  documented w ->
  let d := fst (djedState w) in
  (300 < reserveRatio d < 700)%Q /\
  status d <> CRITICAL /\
  (forall avg reported,
     (Qabs (reported - (500 + rem avg 200)) <= 100)%Q ->
     djedStateStatus reported <> CRITICAL).
Proof.
  intros _ d. subst d.
  destruct (djedState_derives w) as (p & ns & bd & now & Hp & ->).
  destruct (reserveRatio_target p ns bd now Hp) as [_ Hr].
  pose proof (targetRatio_bounds (avgTxCount (items_of bd))) as Ht.
  rewrite <- Hr in Ht. split; [exact Ht |].
  split; [| exact not_critical_near_target].
  rewrite status_of_ratio.
  apply (not_critical_near_target (avgTxCount (items_of bd))).
  rewrite Hr. apply Qabs_Qle_condition. lra.
Qed.

Lemma djedState_never_critical_witness :
  status
    (fst (djedState
            (worldServing
               (JObj [("ergo", JObj [("usd", JNum (145 # 100))]);
                      ("supply", JNum 97739924);
                      ("items",
                       JArr [JObj [("transactionsCount", JNum 250)];
                             JObj []])]))))
  <> CRITICAL.
Proof.
  apply (djedState_never_critical
           (worldServing
              (JObj [("ergo", JObj [("usd", JNum (145 # 100))]);
                     ("supply", JNum 97739924);
                     ("items",
                      JArr [JObj [("transactionsCount", JNum 250)];
                            JObj []])]))).
  intros n url. exact documented_example_body.
Defined.

(** X23.  On upstream answers of the documented shape and range: when no
    recent block reports a negative transaction count (and also when the
    block list is missing or empty), the live branch reports the status
    OPTIMAL, and in exact arithmetic its reserve ratio lies in [500, 700).
    The doubles of the code can fall just short of such a bound
    (499.9999999999999 for 500); the status does not depend on it: for
    every non-negative average, a reported ratio within 100 of the target
    500 + (average % 200) is graded OPTIMAL. *)
Theorem nonnegative_counts_are_optimal (ergPrice : Q)
    (networkState blocksData : option json) (now : Z) :
  Js.falsy ergPrice = false ->
  inRange ergPrice ->
  documentedBody networkState ->
  documentedBody blocksData ->
  Forall (fun block => (0 <= transactionsCount block)%Q)
         (items_of blocksData) ->
  let d := deriveState ergPrice networkState blocksData now in
  (500 <= reserveRatio d < 700)%Q /\
  status d = OPTIMAL /\
  (forall avg reported,
     (0 <= avg)%Q ->
     (Qabs (reported - (500 + rem avg 200)) <= 100)%Q ->
     djedStateStatus reported = OPTIMAL).
Proof.
  intros Hp _ _ _ Hall d. subst d.
  destruct (reserveRatio_target ergPrice networkState blocksData now Hp)
    as [_ Hr].
  assert (0 < 200)%Q as H200 by lra.
  assert (forall avg reported,
            (0 <= avg)%Q ->
            (Qabs (reported - (500 + rem avg 200)) <= 100)%Q ->
            djedStateStatus reported = OPTIMAL) as Hnear.
  { intros avg reported Havg Hnear. apply Qabs_Qle_condition in Hnear.
    pose proof (rem_nonneg avg 200 H200 Havg) as Hrem.
    unfold djedStateStatus, Js.ge.
    destruct (Qle_bool 400 reported) eqn:E; [reflexivity |].
    exfalso. apply not_true_iff_false in E. apply E, Qle_bool_iff. lra. }
  pose proof (rem_nonneg _ 200 H200 (avgTxCount_nonneg _ Hall)) as Hrem.
  split; [rewrite Hr; lra |]. split; [| exact Hnear].
  rewrite status_of_ratio.
  apply (Hnear (avgTxCount (items_of blocksData))).
  - now apply avgTxCount_nonneg.
  - rewrite Hr. apply Qabs_Qle_condition. lra.
Qed.

Lemma nonnegative_counts_are_optimal_witness :
  status
    (deriveState (145 # 100)
       (Some (JObj [("ergo", JObj [("usd", JNum (145 # 100))]);
                    ("supply", JNum 97739924);
                    ("items",
                     JArr [JObj [("transactionsCount", JNum 250)];
                           JObj []])]))
       (Some (JObj [("ergo", JObj [("usd", JNum (145 # 100))]);
                    ("supply", JNum 97739924);
                    ("items",
                     JArr [JObj [("transactionsCount", JNum 250)];
                           JObj []])]))
       0)
  = OPTIMAL.
Proof.
  apply (nonnegative_counts_are_optimal (145 # 100)
           (Some (JObj [("ergo", JObj [("usd", JNum (145 # 100))]);
                        ("supply", JNum 97739924);
                        ("items",
                         JArr [JObj [("transactionsCount", JNum 250)];
                               JObj []])]))
           (Some (JObj [("ergo", JObj [("usd", JNum (145 # 100))]);
                        ("supply", JNum 97739924);
                        ("items",
                         JArr [JObj [("transactionsCount", JNum 250)];
                               JObj []])]))
           0).
  - reflexivity.
  - right. split; now apply Qle_bool_iff.
  - exact documented_example_body.
  - exact documented_example_body.
  - repeat constructor; discriminate.
Defined.




End DjedRouteFacts.

(** ** The simulation modal *)

Module SimulationFacts.
Import Simulation.

Lemma calculateRatioFromPrice_scales (props : Props) (st : State)
    (k price : Q) :
  (calculateRatioFromPrice props st (price * k)
   == calculateRatioFromPrice props st price * k)%Q.
Proof.
  unfold calculateRatioFromPrice.
  destruct (protocolState st) as [p |].
  - cbv zeta. unfold Qdiv. ring.
  - destruct (Js.gt (currentReserveRatio props) 0); [| ring].
    unfold Qdiv. ring.
Qed.

(** X25.  The flash-crash scenario tells the parent exactly half the ratio
    the modal computes for the live price, whether or not the protocol
    state has been loaded; without protocol state and with a positive live
    ratio that is half the live ratio.  The price it sets is half the live
    price and a forced ratio is dropped, so the next render displays the
    ratio the parent was told. *)
Theorem flash_crash_halves_ratio
    (determineSystemStatus : Q -> SystemStatus) (props : Props) (st : State) :
  Js.falsy (currentPrice props) = false ->
  Js.falsy (currentReserveRatio props) = false ->
  exists st' newRatio,
    handleScenarioActivate determineSystemStatus props st flash_crash
    = (st',
       [OnScenarioActivate flash_crash;
        OnSimulatedPriceChange (currentPrice props * (1 # 2)) newRatio
          (determineSystemStatus newRatio)]) /\
    (newRatio
     == calculateRatioFromPrice props st (currentPrice props) * (1 # 2))%Q /\
    (protocolState st = None ->
     (0 < currentReserveRatio props)%Q ->
     (newRatio == currentReserveRatio props * (1 # 2))%Q) /\
    displayedRatio props st' = newRatio.
Proof.
  intros Hp Hr. unfold handleScenarioActivate. rewrite Hp, Hr. cbn [orb].
  eexists _, _. split; [reflexivity |].
  split; [| split; [| reflexivity]].
  - apply calculateRatioFromPrice_scales.
  - intros Hnone Hpos. unfold calculateRatioFromPrice. rewrite Hnone.
    apply JsFacts.gt_iff in Hpos. rewrite Hpos.
    apply DjedRouteFacts.truthy_nonzero in Hp. field. exact Hp.
Qed.

Lemma flash_crash_halves_ratio_witness :
  exists st' newRatio,
    handleScenarioActivate (fun _ => NORMAL) (mkProps (145 # 100) 600)
      (mkModal (145 # 100) None (Some 350%Q) None) flash_crash
    = (st',
       [OnScenarioActivate flash_crash;
        OnSimulatedPriceChange ((145 # 100) * (1 # 2)) newRatio NORMAL]) /\
    displayedRatio (mkProps (145 # 100) 600) st' = newRatio.
Proof.
  destruct (flash_crash_halves_ratio (fun _ => NORMAL)
              (mkProps (145 # 100) 600)
              (mkModal (145 # 100) None (Some 350%Q) None)
              eq_refl eq_refl)
    as (st' & newRatio & Hrun & _ & _ & Hshown).
  exists st', newRatio. split; [exact Hrun | exact Hshown].
Defined.

(** X26.  What the parent is told is what the modal shows.  After a
    slider change, a flash crash or a bank run, the ratio passed to
    [onSimulatedPriceChange] is the ratio the next render displays; a
    scenario that makes no such call (oracle freeze, or any scenario while
    the live price or ratio is missing or zero) constrains nothing.  For
    the reset scenario the two agree when no protocol state is loaded and
    the live ratio is positive: the parent is told the live ratio, the
    modal recomputes it from the live price. *)
Theorem parent_is_told_displayed_ratio
    (determineSystemStatus : Q -> SystemStatus) (props : Props) (st : State) :
  (forall newPrice,
     notifiedRatio
       (snd (handleSliderChange determineSystemStatus props st newPrice))
     = Some (displayedRatio props
               (fst (handleSliderChange determineSystemStatus props st
                       newPrice)))) /\
  (forall scenario r,
     scenario <> none ->
     notifiedRatio
       (snd (handleScenarioActivate determineSystemStatus props st scenario))
     = Some r ->
     displayedRatio props
       (fst (handleScenarioActivate determineSystemStatus props st scenario))
     = r) /\
  (forall r,
     protocolState st = None ->
     (0 < currentReserveRatio props)%Q ->
     notifiedRatio
       (snd (handleScenarioActivate determineSystemStatus props st none))
     = Some r ->
     (displayedRatio props
        (fst (handleScenarioActivate determineSystemStatus props st none))
      == r)%Q).
Proof.
  split; [reflexivity |]. split.
  - intros scenario r Hscenario. unfold handleScenarioActivate.
    destruct (Js.falsy (currentPrice props) || Js.falsy (currentReserveRatio props));
      [discriminate |].
    destruct scenario; try discriminate; [congruence | |];
      cbn [snd fst notifiedRatio fold_left]; intros [= <-]; reflexivity.
  - intros r Hnone Hpos. unfold handleScenarioActivate.
    destruct (Js.falsy (currentPrice props)) eqn:Hp; [discriminate |].
    destruct (Js.falsy (currentReserveRatio props)); [discriminate |].
    cbn [orb snd fst notifiedRatio fold_left]. intros [= <-].
    unfold displayedRatio, calculateRatioFromPrice.
    cbn [forcedRatio protocolState simulatedPrice]. rewrite Hnone.
    apply JsFacts.gt_iff in Hpos. rewrite Hpos.
    apply DjedRouteFacts.truthy_nonzero in Hp. field. exact Hp.
Qed.

Lemma fetchProtocolState_loaded (d : DjedRoute.StateData) (st : State) :
  (0 < DjedRoute.baseReserves d)%Q ->
  (0 < DjedRoute.djedSupply d)%Q ->
  fetchProtocolState
    (HttpResponse true 200 "OK" (inr (DjedRoute.stateJson d))) st
  = setProtocolState
      (Some (mkProtocolState (DjedRoute.baseReserves d)
                             (DjedRoute.djedSupply d)
                             (Some (DjedRoute.reserveRatio d))))
      st.
Proof.
  intros Hb Hs. unfold fetchProtocolState, DjedRoute.stateJson.
  cbn [Engine.usable_body Engine.prop Engine.lookup_field Engine.truthy_opt
       Engine.truthy Engine.number_of String.eqb Ascii.eqb Bool.eqb andb].
  assert (String.eqb (DjedRoute.statusName (DjedRoute.status d)) "NOT_DEPLOYED"
          = false) as -> by (now destruct (DjedRoute.status d)).
  assert (Qeq_bool (DjedRoute.djedSupply d) 0 = false) as ->.
  { apply not_true_iff_false. rewrite Qeq_bool_iff. lra. }
  apply JsFacts.gt_iff in Hb, Hs. now rewrite Hb, Hs.
Qed.

(** X27.  The modal on top of the route.  When the modal's state request is
    answered by the live branch of the [djed/state] route with positive
    reserves and a positive ERG price, the protocol state is loaded, and the
    ratio the modal computes for a price is the route's reserve ratio
    scaled by that price over the route's ERG price; at the route's own
    price the modal shows the route's ratio again. *)
Theorem modal_rescales_route_ratio (ergPrice : Q)
    (networkState blocksData : option json) (now : Z)
    (props : Props) (st : State) (price : Q) :
  (0 < ergPrice)%Q ->
  (0 < DjedRoute.baseReserves
         (DjedRoute.deriveState ergPrice networkState blocksData now))%Q ->
  let d := DjedRoute.deriveState ergPrice networkState blocksData now in
  let st' :=
    fetchProtocolState
      (HttpResponse true 200 "OK" (inr (DjedRoute.stateJson d))) st in
  protocolState st'
  = Some (mkProtocolState (DjedRoute.baseReserves d) (DjedRoute.djedSupply d)
                          (Some (DjedRoute.reserveRatio d))) /\
  (calculateRatioFromPrice props st' price
   == DjedRoute.reserveRatio d * (price / ergPrice))%Q /\
  (calculateRatioFromPrice props st' ergPrice == DjedRoute.reserveRatio d)%Q.
Proof.
  intros Hp Hb d st'.
  assert (Js.falsy ergPrice = false) as Hp0
    by (apply TraversalFacts.falsy_false; lra).
  destruct (DjedRouteFacts.reserveRatio_target ergPrice networkState blocksData
              now Hp0) as [Hs0 Hratio].
  pose proof (DjedRouteFacts.targetRatio_bounds
                (DjedRoute.avgTxCount (DjedRoute.items_of blocksData))) as Ht.
  rewrite <- Hratio in Ht. fold d in Hb, Hs0, Ht.
  assert (0 < DjedRoute.djedSupply d)%Q as Hs.
  { subst d. cbn [DjedRoute.deriveState DjedRoute.djedSupply
                  DjedRoute.baseReserves] in *.
    unfold Qdiv. apply Qmult_lt_0_compat.
    - apply Qmult_lt_0_compat; [| lra].
      apply Qmult_lt_0_compat; [exact Hb | exact Hp].
    - apply Qinv_lt_0_compat.
      pose proof (DjedRouteFacts.targetRatio_bounds
                    (DjedRoute.avgTxCount (DjedRoute.items_of blocksData))).
      lra. }
  assert (protocolState st'
          = Some (mkProtocolState (DjedRoute.baseReserves d)
                                  (DjedRoute.djedSupply d)
                                  (Some (DjedRoute.reserveRatio d)))) as Hst
    by (subst st'; now rewrite (fetchProtocolState_loaded d st Hb Hs)).
  split; [exact Hst |].
  assert (forall x,
            (calculateRatioFromPrice props st' x
             == DjedRoute.reserveRatio d * (x / ergPrice))%Q) as Hscale.
  { intros x. unfold calculateRatioFromPrice. rewrite Hst.
    cbn [baseReserves stablecoinSupply].
    subst d. cbn [DjedRoute.deriveState DjedRoute.djedSupply
                  DjedRoute.baseReserves DjedRoute.reserveRatio] in *.
    field. repeat split; lra. }
  split; [apply Hscale |].
  rewrite Hscale. field. lra.
Qed.

Lemma modal_rescales_route_ratio_witness :
  (calculateRatioFromPrice (mkProps 0 0)
     (fetchProtocolState
        (HttpResponse true 200 "OK"
           (inr (DjedRoute.stateJson
                   (DjedRoute.deriveState (145 # 100) None None 0))))
        (mkModal 0 None None None))
     (145 # 100)
   == DjedRoute.reserveRatio (DjedRoute.deriveState (145 # 100) None None 0))%Q.
Proof.
  apply (modal_rescales_route_ratio (145 # 100) None None 0 (mkProps 0 0)
           (mkModal 0 None None None) (145 # 100));
    reflexivity.
Defined.

End SimulationFacts.
